(** * A shallow embedding of the syslog client of [logger]

    The development follows the Go source of the command-line logger:
    the [Priority] constants, the string-to-priority parsers
    ([levelPriority], [facilityPriority], [parsePriority]) and the
    [Writer] with its connection handling ([Dial], [connect], [Close],
    [writeAndRetry], [write], [writeString]) and the per-severity entry
    points.

    Go values are rendered as follows.
    - [Priority] is Go's [int]; it is a [Z], and the only arithmetic the
      program performs on it is [&] and [|], written [Z.land] and [Z.lor].
    - A Go [string] is a sequence of bytes: it is a [string] of the
      standard library, one [ascii] per byte, and [len] is [String.length].
    - A pair of results [(v, err)] is a pair whose second component is an
      [option error], [None] standing for [nil].
    - A function that may stop with a run-time panic returns a [go_result].
    - Methods of [*Writer] are state transformers over the writer and the
      outside world (network, clock, process), see [Machine]. *)

From Stdlib Require Import ZArith NArith List String Ascii Bool Lia.
From Stdlib Require Import DecimalString.
Import ListNotations.

Local Open Scope string_scope.
Local Open Scope Z_scope.

(** ** Priorities *)

Definition Priority := Z.

Definition severityMask : Z := 0x07.
Definition facilityMask : Z := 0xf8.

(** Severities: [iota] counts from 0. *)
Definition LOG_EMERG   : Priority := 0.
Definition LOG_ALERT   : Priority := 1.
Definition LOG_CRIT    : Priority := 2.
Definition LOG_ERR     : Priority := 3.
Definition LOG_WARNING : Priority := 4.
Definition LOG_NOTICE  : Priority := 5.
Definition LOG_INFO    : Priority := 6.
Definition LOG_DEBUG   : Priority := 7.

(** Facilities: [iota << 3]; the four blank identifiers after [LOG_FTP]
    consume the values 12 to 15 of [iota]. *)
Definition LOG_KERN     : Priority := Z.shiftl 0 3.
Definition LOG_USER     : Priority := Z.shiftl 1 3.
Definition LOG_MAIL     : Priority := Z.shiftl 2 3.
Definition LOG_DAEMON   : Priority := Z.shiftl 3 3.
Definition LOG_AUTH     : Priority := Z.shiftl 4 3.
Definition LOG_SYSLOG   : Priority := Z.shiftl 5 3.
Definition LOG_LPR      : Priority := Z.shiftl 6 3.
Definition LOG_NEWS     : Priority := Z.shiftl 7 3.
Definition LOG_UUCP     : Priority := Z.shiftl 8 3.
Definition LOG_CRON     : Priority := Z.shiftl 9 3.
Definition LOG_AUTHPRIV : Priority := Z.shiftl 10 3.
Definition LOG_FTP      : Priority := Z.shiftl 11 3.
Definition LOG_LOCAL0   : Priority := Z.shiftl 16 3.
Definition LOG_LOCAL1   : Priority := Z.shiftl 17 3.
Definition LOG_LOCAL2   : Priority := Z.shiftl 18 3.
Definition LOG_LOCAL3   : Priority := Z.shiftl 19 3.
Definition LOG_LOCAL4   : Priority := Z.shiftl 20 3.
Definition LOG_LOCAL5   : Priority := Z.shiftl 21 3.
Definition LOG_LOCAL6   : Priority := Z.shiftl 22 3.
Definition LOG_LOCAL7   : Priority := Z.shiftl 23 3.

(** ** Errors and results *)

(** The dynamic types of the [error] values the program meets: the ones it
    builds itself with [errors.New] and [fmt.Errorf] (a message), and the
    [*net.OpError] values handed back by the [net] package. *)
Record OpError : Type := mkOpError {
  Op : string;
  Detail : string
}.

Inductive error : Type :=
| errorString (msg : string)
| net_error (e : OpError).

(** [errors.New("log/syslog: invalid priority")] *)
Definition ErrInvalidPriority : error :=
  errorString "log/syslog: invalid priority".

(** [fmt.Errorf("invalid syslog level: %s", level)] *)
Definition ErrInvalidLevel (level : string) : error :=
  errorString ("invalid syslog level: " ++ level).

(** [fmt.Errorf("invalid syslog facility: %s", facility)] *)
Definition ErrInvalidFacility (facility : string) : error :=
  errorString ("invalid syslog facility: " ++ facility).

Definition is_invalid_level (e : error) : bool :=
  match e with
  | errorString msg => String.prefix "invalid syslog level: " msg
  | net_error _ => false
  end.

Definition is_invalid_facility (e : error) : bool :=
  match e with
  | errorString msg => String.prefix "invalid syslog facility: " msg
  | net_error _ => false
  end.

(** A computation that either yields its results or stops with a run-time
    panic (here: an index out of range). *)
Inductive go_result (A : Type) : Type :=
| Done (a : A)
| RuntimePanic (msg : string).
Arguments Done {A} a.
Arguments RuntimePanic {A} msg.

(** ** The [strings] package *)

Definition is_lower (c : ascii) : bool :=
  ((97 <=? N_of_ascii c) && (N_of_ascii c <=? 122))%N.

(** [c -= 'a' - 'A'] on a lower-case byte, other bytes unchanged. *)
Definition upper_byte (c : ascii) : ascii :=
  if is_lower c then ascii_of_N (N_of_ascii c - 32) else c.

Fixpoint map_bytes (f : ascii -> ascii) (s : string) : string :=
  match s with
  | EmptyString => EmptyString
  | String c r => String (f c) (map_bytes f r)
  end.

(** [c < utf8.RuneSelf] for every byte of [s]. *)
Fixpoint isASCII (s : string) : bool :=
  match s with
  | EmptyString => true
  | String c r => (N_of_ascii c <? 128)%N && isASCII r
  end.

(** [strings.HasSuffix(s, suffix)]:
    [len(s) >= len(suffix) && s[len(s)-len(suffix):] == suffix]. *)
Definition HasSuffix (s suffix : string) : bool :=
  (String.length suffix <=? String.length s)%nat &&
  (substring (String.length s - String.length suffix)
             (String.length suffix) s =? suffix)%string.

(** [strings.Split(s, sep)] for a separator of one byte: the pieces
    between the occurrences of [sep], always at least one piece. *)
Fixpoint Split (s : string) (sep : ascii) : list string :=
  match s with
  | EmptyString => [EmptyString]
  | String c r =>
      if Ascii.eqb c sep then EmptyString :: Split r sep
      else match Split r sep with
           | t :: ts => String c t :: ts
           | [] => [String c EmptyString]
           end
  end.

(** Does the byte [c] occur in [s]? *)
Fixpoint contains_byte (c : ascii) (s : string) : bool :=
  match s with
  | EmptyString => false
  | String x r => Ascii.eqb x c || contains_byte c r
  end.

(** [tokens[i]], with Go's bounds check. *)
Definition elem_at (tokens : list string) (i : nat) : go_result string :=
  match nth_error tokens i with
  | Some t => Done t
  | None =>
      RuntimePanic ("runtime error: index out of range ["
                    ++ NilZero.string_of_uint (Nat.to_uint i)
                    ++ "] with length "
                    ++ NilZero.string_of_uint (Nat.to_uint (List.length tokens)))
  end.

(** [%d] of an integer. *)
Definition fmt_d (z : Z) : string := NilZero.string_of_int (Z.to_int z).

(** ** Parsing a ["facility.level"] string *)

Section Parse.

Local Open Scope string_scope.

(** [strings.ToUpper] takes a byte-wise path on strings made of ASCII bytes
    only and otherwise maps [unicode.ToUpper] over the runes of the string.
    The second path lives in Go's Unicode tables; it is left abstract, so
    every statement below holds whatever it returns. *)
Variable unicode_ToUpper : string -> string.

Definition ToUpper (s : string) : string :=
  if isASCII s then map_bytes upper_byte s else unicode_ToUpper s.

Definition levelPriority (level : string) : Priority * option error :=
  let level := ToUpper level in
  if level =? "EMERG" then (LOG_EMERG, None)
  else if level =? "ALERT" then (LOG_ALERT, None)
  else if level =? "CRIT" then (LOG_CRIT, None)
  else if level =? "ERR" then (LOG_ERR, None)
  else if (level =? "WARN") || (level =? "WARNING") then (LOG_WARNING, None)
  else if level =? "NOTICE" then (LOG_NOTICE, None)
  else if level =? "INFO" then (LOG_INFO, None)
  else if level =? "DEBUG" then (LOG_DEBUG, None)
  else (0, Some (ErrInvalidLevel level)).

Definition facilityPriority (facility : string) : Priority * option error :=
  let facility := ToUpper facility in
  if facility =? "KERN" then (LOG_KERN, None)
  else if facility =? "USER" then (LOG_USER, None)
  else if facility =? "MAIL" then (LOG_MAIL, None)
  else if facility =? "DAEMON" then (LOG_DAEMON, None)
  else if facility =? "AUTH" then (LOG_AUTH, None)
  else if facility =? "SYSLOG" then (LOG_SYSLOG, None)
  else if facility =? "LPR" then (LOG_LPR, None)
  else if facility =? "NEWS" then (LOG_NEWS, None)
  else if facility =? "UUCP" then (LOG_UUCP, None)
  else if facility =? "CRON" then (LOG_CRON, None)
  else if facility =? "AUTHPRIV" then (LOG_AUTHPRIV, None)
  else if facility =? "FTP" then (LOG_FTP, None)
  else if facility =? "LOCAL0" then (LOG_LOCAL0, None)
  else if facility =? "LOCAL1" then (LOG_LOCAL1, None)
  else if facility =? "LOCAL2" then (LOG_LOCAL2, None)
  else if facility =? "LOCAL3" then (LOG_LOCAL3, None)
  else if facility =? "LOCAL4" then (LOG_LOCAL4, None)
  else if facility =? "LOCAL5" then (LOG_LOCAL5, None)
  else if facility =? "LOCAL6" then (LOG_LOCAL6, None)
  else if facility =? "LOCAL7" then (LOG_LOCAL7, None)
  else (0, Some (ErrInvalidFacility facility)).

Definition parsePriority (priority : string)
  : go_result (Priority * option error) :=
  let tokens := Split priority "." in
  match elem_at tokens 0 with
  | RuntimePanic msg => RuntimePanic msg
  | Done t0 =>
      match facilityPriority t0 with
      | (_, Some err) => Done (0, Some err)
      | (facility, None) =>
          match elem_at tokens 1 with
          | RuntimePanic msg => RuntimePanic msg
          | Done t1 =>
              match levelPriority t1 with
              | (_, Some err) => Done (0, Some err)
              | (level, None) => Done (Z.lor facility level, None)
              end
          end
      end
  end.

End Parse.

(** ** The outside world

    Everything the writer does not own: the process ([os.Args],
    [os.Hostname], [os.Getpid]), the clock, and the network.  The answers
    of the network and of the clock are oracles indexed by the number of
    network events that have already happened; [trace] records those
    events, oldest first, and is what a receiver or an observer sees. *)

(** A live [net.Conn]. *)
Record Conn : Type := mkConn {
  conn_id : nat;
  LocalAddr : string
}.

Inductive event : Type :=
| EvDial (network raddr : string) (res : Conn + OpError)
| EvWrite (c : Conn) (data : string) (res : option OpError)
| EvClose (c : Conn) (res : option OpError).

Record World : Type := mkWorld {
  os_Args : list string;
  os_Hostname : string * option error;
  os_Getpid : Z;
  time_Now_RFC3339 : nat -> string;
  net_Dial : nat -> string -> string -> Conn + OpError;
  conn_Write : nat -> Conn -> string -> option OpError;
  conn_Close : nat -> Conn -> option OpError;
  trace : list event
}.

Definition log (e : event) (σ : World) : World :=
  mkWorld (os_Args σ) (os_Hostname σ) (os_Getpid σ) (time_Now_RFC3339 σ)
          (net_Dial σ) (conn_Write σ) (conn_Close σ) (trace σ ++ [e]).

Definition is_write (e : event) : bool :=
  match e with EvWrite _ _ _ => true | _ => false end.

Definition is_dial (e : event) : bool :=
  match e with EvDial _ _ _ => true | _ => false end.

(** The strings put on the wire, in order. *)
Fixpoint wire (tr : list event) : list string :=
  match tr with
  | [] => []
  | EvWrite _ data _ :: r => data :: wire r
  | _ :: r => wire r
  end.

Definition write_attempts (tr : list event) : nat :=
  List.length (filter is_write tr).

Definition dial_attempts (tr : list event) : nat :=
  List.length (filter is_dial tr).

(** The events of [tr'] that come after the first [length tr] ones. *)
Definition events_since (tr tr' : list event) : list event :=
  skipn (List.length tr) tr'.

(** ** The writer *)

Record Writer : Type := mkWriter {
  priority : Priority;
  tag : string;
  hostname : string;
  network : string;
  raddr : string;
  mu : bool;            (* sync.Mutex: [true] when locked *)
  conn : option Conn    (* [None] is [nil] *)
}.

Definition set_hostname (h : string) (w : Writer) : Writer :=
  mkWriter (priority w) (tag w) h (network w) (raddr w) (mu w) (conn w).

Definition set_mu (b : bool) (w : Writer) : Writer :=
  mkWriter (priority w) (tag w) (hostname w) (network w) (raddr w) b (conn w).

Definition set_conn (c : option Conn) (w : Writer) : Writer :=
  mkWriter (priority w) (tag w) (hostname w) (network w) (raddr w) (mu w) c.

(** ** Computations

    A call runs on a state, and it returns, or panics, or never gets past
    a [Lock]: one thread of control runs the writer's methods, so a
    [Lock] on a mutex that is already held has nobody to release it.  The
    state reached is kept in the three cases, with the events so far. *)

Inductive outcome (S A : Type) : Type :=
| Returns (a : A) (s : S)
| Panics (msg : string) (s : S)
| Blocks (s : S).
Arguments Returns {S A} a s.
Arguments Panics {S A} msg s.
Arguments Blocks {S A} s.

Definition Go (S A : Type) : Type := S -> outcome S A.

Definition ret {S A} (a : A) : Go S A := fun s => Returns a s.

Definition bind {S A B} (c : Go S A) (k : A -> Go S B) : Go S B :=
  fun s =>
    match c s with
    | Returns a s' => k a s'
    | Panics msg s' => Panics msg s'
    | Blocks s' => Blocks s'
    end.

Definition panic {S A} (msg : string) : Go S A := fun s => Panics msg s.

(** [defer d()] at the head of [body]: [d] runs when [body] returns and
    when it panics, not when it blocks. *)
Definition defer {S A} (d : Go S unit) (body : Go S A) : Go S A :=
  fun s =>
    match body s with
    | Returns a s' =>
        match d s' with
        | Returns _ s'' => Returns a s''
        | Panics msg s'' => Panics msg s''
        | Blocks s'' => Blocks s''
        end
    | Panics msg s' =>
        match d s' with
        | Returns _ s'' => Panics msg s''
        | Panics msg' s'' => Panics msg' s''
        | Blocks s'' => Blocks s''
        end
    | Blocks s' => Blocks s'
    end.

Definition final_state {S A} (o : outcome S A) : S :=
  match o with
  | Returns _ s => s
  | Panics _ s => s
  | Blocks s => s
  end.

Declare Scope go_scope.
Delimit Scope go_scope with go.
Notation "x <- c ;; k" := (bind c (fun x => k))
  (at level 61, c at next level, right associativity) : go_scope.
Notation "c ;; k" := (bind c (fun _ => k))
  (at level 61, right associativity) : go_scope.

Definition Machine : Type := Writer * World.

Definition the_writer : Go Machine Writer := fun m => Returns (fst m) m.
Definition the_world : Go Machine World := fun m => Returns (snd m) m.
Definition update_writer (f : Writer -> Writer) : Go Machine unit :=
  fun m => Returns tt (f (fst m), snd m).
Definition emit (e : event) : Go Machine unit :=
  fun m => Returns tt (fst m, log e (snd m)).

(** [w.mu.Lock()] *)
Definition mu_Lock : Go Machine unit :=
  fun m => if mu (fst m) then Blocks m
           else Returns tt (set_mu true (fst m), snd m).

(** [w.mu.Unlock()] *)
Definition mu_Unlock : Go Machine unit :=
  fun m => if mu (fst m) then Returns tt (set_mu false (fst m), snd m)
           else Panics "fatal error: sync: unlock of unlocked mutex" m.

(** [w.conn.Close()] *)
Definition net_conn_Close (c : Conn) : Go Machine (option error) :=
  (σ <- the_world ;;
   let res := conn_Close σ (List.length (trace σ)) c in
   emit (EvClose c res) ;;
   ret (option_map net_error res))%go.

(** [net.Dial(network, raddr)] *)
Definition net_Dial_call (network raddr : string)
  : Go Machine (Conn + OpError) :=
  (σ <- the_world ;;
   let res := net_Dial σ (List.length (trace σ)) network raddr in
   emit (EvDial network raddr res) ;;
   ret res)%go.

(** [fmt.Fprintf(w.conn, ...)] once the text is formatted: one [Write] on
    the connection; on a [nil] connection the call dereferences nil. *)
Definition Fprintf_conn (data : string) : Go Machine (option error) :=
  (w <- the_writer ;;
   match conn w with
   | None =>
       panic "runtime error: invalid memory address or nil pointer dereference"
   | Some c =>
       σ <- the_world ;;
       let res := conn_Write σ (List.length (trace σ)) c data in
       emit (EvWrite c data res) ;;
       ret (option_map net_error res)
   end)%go.

(** [Close] closes a connection to the syslog daemon. *)
Definition Close : Go Machine (option error) :=
  (mu_Lock ;;
   defer mu_Unlock
     (w <- the_writer ;;
      match conn w with
      | Some c =>
          err <- net_conn_Close c ;;
          update_writer (set_conn None) ;;
          ret err
      | None => ret None
      end))%go.

(** [connect] makes a connection to the syslog server.  It must be called
    with [w.mu] held. *)
Definition connect : Go Machine (option error) :=
  (w <- the_writer ;;
   (match conn w with
    | Some _ => _ <- Close ;; ret tt   (* the error of Close is ignored *)
    | None => ret tt
    end) ;;
   w <- the_writer ;;
   res <- net_Dial_call (network w) (raddr w) ;;
   match res with
   | inl c =>
       update_writer (set_conn (Some c)) ;;
       (if (hostname w =? "")%string
        then update_writer (set_hostname (LocalAddr c))
        else ret tt) ;;
       ret None
   | inr err =>
       update_writer (set_conn None) ;;
       ret (Some (net_error err))
   end)%go.

(** The text [fmt.Fprintf] builds from ["<%d>%s %s %s[%d]: %s%s"]. *)
Definition frame (p : Priority) (timestamp hostname tag : string) (pid : Z)
                 (msg nl : string) : string :=
  "<" ++ fmt_d p ++ ">" ++ timestamp ++ " " ++ hostname ++ " " ++ tag
      ++ "[" ++ fmt_d pid ++ "]: " ++ msg ++ nl.

Definition writeString (p : Priority) (hostname tag msg nl : string)
  : Go Machine (option error) :=
  (σ <- the_world ;;
   let timestamp := time_Now_RFC3339 σ (List.length (trace σ)) in
   Fprintf_conn (frame p timestamp hostname tag (os_Getpid σ) msg nl))%go.

Definition newline : string := String (ascii_of_nat 10) EmptyString.

(** [write] generates and writes a syslog formatted string. *)
Definition write (p : Priority) (msg : string) : Go Machine (Z * option error) :=
  (let nl := if negb (HasSuffix msg newline) then newline else "" in
   w <- the_writer ;;
   err <- writeString p (hostname w) (tag w) msg nl ;;
   match err with
   | Some e => ret (0, Some e)
   | None => ret (Z.of_nat (String.length msg), None)
   end)%go.

Definition writeAndRetry (p : Priority) (s : string)
  : Go Machine (Z * option error) :=
  (w <- the_writer ;;
   let pr := Z.lor (Z.land (priority w) facilityMask) (Z.land p severityMask) in
   mu_Lock ;;
   defer mu_Unlock
     (w <- the_writer ;;
      first <- match conn w with
               | Some _ => r <- write pr s ;; ret (Some r)
               | None => ret None
               end ;;
      match first with
      | Some (n, None) => ret (n, None)
      | _ =>
          err <- connect ;;
          match err with
          | Some e => ret (0, Some e)
          | None => write pr s
          end
      end))%go.

(** [Write] sends a log message to the syslog daemon. *)
Definition Write (b : string) : Go Machine (Z * option error) :=
  (w <- the_writer ;; writeAndRetry (priority w) b)%go.

Definition Emerg (m : string) : Go Machine (option error) :=
  (r <- writeAndRetry LOG_EMERG m ;; ret (snd r))%go.
Definition Alert (m : string) : Go Machine (option error) :=
  (r <- writeAndRetry LOG_ALERT m ;; ret (snd r))%go.
Definition Crit (m : string) : Go Machine (option error) :=
  (r <- writeAndRetry LOG_CRIT m ;; ret (snd r))%go.
Definition Err (m : string) : Go Machine (option error) :=
  (r <- writeAndRetry LOG_ERR m ;; ret (snd r))%go.
Definition Warning (m : string) : Go Machine (option error) :=
  (r <- writeAndRetry LOG_WARNING m ;; ret (snd r))%go.
Definition Notice (m : string) : Go Machine (option error) :=
  (r <- writeAndRetry LOG_NOTICE m ;; ret (snd r))%go.
Definition Info (m : string) : Go Machine (option error) :=
  (r <- writeAndRetry LOG_INFO m ;; ret (snd r))%go.
Definition Debug (m : string) : Go Machine (option error) :=
  (r <- writeAndRetry LOG_DEBUG m ;; ret (snd r))%go.

(** [Dial] establishes a connection to a log daemon.  It runs before any
    writer exists, on the world alone. *)
Definition Dial (network raddr : string) (priority : Priority)
                (tag hostname : string)
  : Go World (option Writer * option error) :=
  fun σ =>
    if (priority <? 0) || (priority >? Z.lor LOG_LOCAL7 LOG_DEBUG)
    then Returns (None, Some ErrInvalidPriority) σ
    else
      match (if (tag =? "")%string then elem_at (os_Args σ) 0 else Done tag) with
      | RuntimePanic msg => Panics msg σ
      | Done tag =>
          let hostname :=
            if (hostname =? "")%string then fst (os_Hostname σ) else hostname in
          let w := mkWriter priority tag hostname network raddr false None in
          match (mu_Lock ;; defer mu_Unlock connect)%go (w, σ) with
          | Returns (Some err) (_, σ') => Returns (None, Some err) σ'
          | Returns None (w', σ') => Returns (Some w', None) σ'
          | Panics msg (_, σ') => Panics msg σ'
          | Blocks (_, σ') => Blocks σ'
          end
      end.

(** ** The mnemonic tables

    The case labels of the two [switch] statements with the constants
    they return, in source order. *)

Definition facility_table : list (string * Priority) :=
  [ ("KERN", LOG_KERN); ("USER", LOG_USER); ("MAIL", LOG_MAIL);
    ("DAEMON", LOG_DAEMON); ("AUTH", LOG_AUTH); ("SYSLOG", LOG_SYSLOG);
    ("LPR", LOG_LPR); ("NEWS", LOG_NEWS); ("UUCP", LOG_UUCP);
    ("CRON", LOG_CRON); ("AUTHPRIV", LOG_AUTHPRIV); ("FTP", LOG_FTP);
    ("LOCAL0", LOG_LOCAL0); ("LOCAL1", LOG_LOCAL1); ("LOCAL2", LOG_LOCAL2);
    ("LOCAL3", LOG_LOCAL3); ("LOCAL4", LOG_LOCAL4); ("LOCAL5", LOG_LOCAL5);
    ("LOCAL6", LOG_LOCAL6); ("LOCAL7", LOG_LOCAL7) ].

(** The eight level mnemonics. *)
Definition level_table : list (string * Priority) :=
  [ ("EMERG", LOG_EMERG); ("ALERT", LOG_ALERT); ("CRIT", LOG_CRIT);
    ("ERR", LOG_ERR); ("WARNING", LOG_WARNING); ("NOTICE", LOG_NOTICE);
    ("INFO", LOG_INFO); ("DEBUG", LOG_DEBUG) ].

(** The spellings [levelPriority] accepts: the eight mnemonics and the
    alias [WARN]. *)
Definition level_spellings : list (string * Priority) :=
  ("WARN", LOG_WARNING) :: level_table.

Definition facility_mnemonics : list string := map fst facility_table.
Definition level_mnemonics : list string := map fst level_table.
Definition accepted_levels : list string := map fst level_spellings.

Fixpoint assoc (k : string) (t : list (string * Priority)) : option Priority :=
  match t with
  | [] => None
  | (k', v) :: r => if (k =? k')%string then Some v else assoc k r
  end.

(** What a caller of [parsePriority] can tell about a failure. *)
Definition fails_invalid_facility (r : go_result (Priority * option error)) : bool :=
  match r with
  | Done (_, Some e) => is_invalid_facility e
  | _ => false
  end.

Definition fails_invalid_level (r : go_result (Priority * option error)) : bool :=
  match r with
  | Done (_, Some e) => is_invalid_level e
  | _ => false
  end.

(** [tokens[0]] and [tokens[1]] of the split input. *)
Definition facility_token (s : string) : string := hd EmptyString (Split s ".").
Definition level_token (s : string) : option string := nth_error (Split s ".") 1.

(** Everything of a frame that precedes the message. *)
Definition frame_header (p : Priority) (timestamp hostname tag : string)
                        (pid : Z) : string :=
  "<" ++ fmt_d p ++ ">" ++ timestamp ++ " " ++ hostname ++ " " ++ tag
      ++ "[" ++ fmt_d pid ++ "]: ".

(** The newline [write] adds to [msg], and the line it puts on the wire
    for priority [p] from writer [w] in world [σ]. *)
Definition added_newline (msg : string) : string :=
  if negb (HasSuffix msg newline) then newline else "".

Definition wire_line (p : Priority) (w : Writer) (σ : World) (msg : string)
  : string :=
  frame p (time_Now_RFC3339 σ (List.length (trace σ))) (hostname w) (tag w)
        (os_Getpid σ) msg (added_newline msg).

(** The priority [writeAndRetry] computes for severity [p]. *)
Definition effective_priority (w : Writer) (p : Priority) : Priority :=
  Z.lor (Z.land (priority w) facilityMask) (Z.land p severityMask).

(** The writer after a successful [connect] that obtained [c]. *)
Definition connected (c : Conn) (w : Writer) : Writer :=
  let w1 := set_conn (Some c) w in
  if (hostname w =? "")%string then set_hostname (LocalAddr c) w1 else w1.

(** The events a call adds to the trace of [σ]. *)
Definition new_events {A : Type} (σ : World) (o : outcome Machine A)
  : list event :=
  events_since (trace σ) (trace (snd (final_state o))).

(** The ways through [writeAndRetry p s] from writer [w] in world [σ]:
    the outcome of the call and the events it adds. *)
Inductive retry_path (p : Priority) (s : string) (w : Writer) (σ : World)
  : outcome Machine (Z * option error) -> list event -> Prop :=
| path_locked :
    mu w = true ->
    retry_path p s w σ (Blocks (w, σ)) []
| path_written c line :
    mu w = false -> conn w = Some c ->
    line = wire_line (effective_priority w p) w σ s ->
    conn_Write σ (List.length (trace σ)) c line = None ->
    retry_path p s w σ
      (Returns (Z.of_nat (String.length s), None)
               (w, log (EvWrite c line None) σ))
      [EvWrite c line None]
| path_stuck c line e :
    mu w = false -> conn w = Some c ->
    line = wire_line (effective_priority w p) w σ s ->
    conn_Write σ (List.length (trace σ)) c line = Some e ->
    retry_path p s w σ
      (Blocks (set_mu true w, log (EvWrite c line (Some e)) σ))
      [EvWrite c line (Some e)]
| path_dial_failed e :
    mu w = false -> conn w = None ->
    net_Dial σ (List.length (trace σ)) (network w) (raddr w) = inr e ->
    retry_path p s w σ
      (Returns (0, Some (net_error e))
               (w, log (EvDial (network w) (raddr w) (inr e)) σ))
      [EvDial (network w) (raddr w) (inr e)]
| path_dialed c σ1 line res :
    mu w = false -> conn w = None ->
    net_Dial σ (List.length (trace σ)) (network w) (raddr w) = inl c ->
    σ1 = log (EvDial (network w) (raddr w) (inl c)) σ ->
    line = wire_line (effective_priority w p) (connected c w) σ1 s ->
    res = conn_Write σ1 (List.length (trace σ1)) c line ->
    retry_path p s w σ
      (Returns (match res with
                | Some e => (0, Some (net_error e))
                | None => (Z.of_nat (String.length s), None)
                end)
               (connected c w, log (EvWrite c line res) σ1))
      [EvDial (network w) (raddr w) (inl c); EvWrite c line res].

(** The error [Dial] hands back, if it returns one. *)
Definition dial_error (o : outcome World (option Writer * option error))
  : option error :=
  match o with
  | Returns (_, e) _ => e
  | _ => None
  end.

(** A sample world: a receiver that accepts connections and writes. *)
Definition demo_world : World :=
  mkWorld ["logger"] ("myhost", None) 4242
          (fun _ => "2006-01-02T15:04:05Z")
          (fun n _ _ => inl (mkConn n "127.0.0.1:40000"))
          (fun _ _ _ => None)
          (fun _ _ => None)
          [].

(** A world whose receiver has gone away: every write on a connection
    fails, while a new connection would still be accepted. *)
Definition severed_world : World :=
  mkWorld ["logger"] ("myhost", None) 4242
          (fun _ => "2006-01-02T15:04:05Z")
          (fun n _ _ => inl (mkConn n "127.0.0.1:40001"))
          (fun _ _ _ => Some (mkOpError "write" "broken pipe"))
          (fun _ _ => None)
          [].

(** A writer as [Dial] leaves it, on connection 0. *)
Definition demo_writer (p : Priority) : Writer :=
  mkWriter p "svc" "myhost" "tcp" ":1514" false
           (Some (mkConn 0 "127.0.0.1:40000")).

(** ** The command-line tool

    [main] after [flags.Parse]: what the flag library hands back is the
    input.  A run ends by returning from [main] (after the deferred
    [Close]), by [os.Exit] after [log.Print], by a panic, or not at all. *)

(** [strings.Join(elems, sep)] *)
Fixpoint Join (elems : list string) (sep : string) : string :=
  match elems with
  | [] => ""
  | e :: r =>
      match r with
      | [] => e
      | _ :: _ => e ++ sep ++ Join r sep
      end
  end.

Module Options.
Record Options : Type := mk {
  Connection : string;
  Address : string;
  Priority : string;
  Tag : string;
  Hostname : string
}.
End Options.

(** The [default:] tags of [Options]. *)
Definition default_Options : Options.Options :=
  Options.mk "udp" ":514" "user.notice" "" "".

(** What [flags.Parse(&opts)] returned: the filled options and the
    remaining arguments, or an error, which is a request for help
    ([*flags.Error] of type [ErrHelp]) or not. *)
Inductive flags_Parse_result : Type :=
| Parsed (opts : Options.Options) (args : list string)
| ParseError (is_ErrHelp : bool) (msg : string).

(** What [log.Print] was given. *)
Inductive printed : Type :=
| print_flags_error (msg : string)
| print_error (e : error).

Inductive main_end : Type :=
| main_returns
| os_Exit (code : Z) (out : option printed).

Section Command.

Variable unicode_ToUpper : string -> string.

Definition main (parse : flags_Parse_result) : Go World main_end :=
  fun σ =>
    match parse with
    | ParseError is_ErrHelp msg =>
        if is_ErrHelp then Returns (os_Exit 0 None) σ
        else Returns (os_Exit 1 (Some (print_flags_error msg))) σ
    | Parsed opts args =>
        match parsePriority unicode_ToUpper (Options.Priority opts) with
        | RuntimePanic msg => Panics msg σ
        | Done (_, Some err) => Returns (os_Exit 1 (Some (print_error err))) σ
        | Done (priority, None) =>
            match Dial (Options.Connection opts) (Options.Address opts)
                       priority (Options.Tag opts) (Options.Hostname opts) σ with
            | Panics msg σ1 => Panics msg σ1
            | Blocks σ1 => Blocks σ1
            | Returns (_, Some err) σ1 =>
                Returns (os_Exit 1 (Some (print_error err))) σ1
            | Returns (None, None) σ1 =>
                Panics "runtime error: invalid memory address or nil pointer dereference" σ1
            | Returns (Some w, None) σ1 =>
                let message := Join args " " in
                match defer (_ <- Close ;; ret tt)%go
                            (if (0 <? String.length message)%nat
                             then (_ <- Write message ;; ret tt)%go
                             else ret tt)
                            (w, σ1) with
                | Returns _ (_, σ2) => Returns main_returns σ2
                | Panics msg (_, σ2) => Panics msg σ2
                | Blocks (_, σ2) => Blocks σ2
                end
            end
        end
    end.

End Command.

(** The events a run of [main] adds to the trace of [σ]. *)
Definition main_events {A : Type} (σ : World) (o : outcome World A)
  : list event :=
  events_since (trace σ) (trace (final_state o)).

Definition is_close (e : event) : bool :=
  match e with EvClose _ _ => true | _ => false end.

(** The parse of a list of upper-cased tokens: what [parsePriority] does
    once the input is split and each token it looks at is upper-cased. *)
Definition parse_upper_tokens (tokens : list string)
  : go_result (Priority * option error) :=
  match tokens with
  | [] => RuntimePanic "runtime error: index out of range [0] with length 0"
  | t0 :: rest =>
      match assoc t0 facility_table with
      | None => Done (0, Some (ErrInvalidFacility t0))
      | Some fv =>
          match rest with
          | [] => RuntimePanic "runtime error: index out of range [1] with length 1"
          | t1 :: _ =>
              match assoc t1 level_spellings with
              | None => Done (0, Some (ErrInvalidLevel t1))
              | Some lv => Done (Z.lor fv lv, None)
              end
          end
      end
  end.

(** The ways through [main]: how the run ends and what it does on the
    network. *)
Inductive main_path (parse : flags_Parse_result) (σ : World)
  : outcome World main_end -> list event -> Prop :=
| run_exits_early code out :
    main_path parse σ (Returns (os_Exit code out) σ) []
| run_panics_early msg :
    main_path parse σ (Panics msg σ) []
| run_dial_fails opts args e :
    parse = Parsed opts args ->
    main_path parse σ
      (Returns (os_Exit 1 (Some (print_error (net_error e))))
               (log (EvDial (Options.Connection opts) (Options.Address opts)
                            (inr e)) σ))
      [EvDial (Options.Connection opts) (Options.Address opts) (inr e)]
| run_no_message opts args c res σ' :
    parse = Parsed opts args -> Join args " " = "" ->
    main_path parse σ (Returns main_returns σ')
      [EvDial (Options.Connection opts) (Options.Address opts) (inl c);
       EvClose c res]
| run_sends opts args c line res σ' :
    parse = Parsed opts args -> Join args " " <> "" ->
    main_path parse σ (Returns main_returns σ')
      [EvDial (Options.Connection opts) (Options.Address opts) (inl c);
       EvWrite c line None;
       EvClose c res]
| run_hangs opts args c line e σ' :
    parse = Parsed opts args -> Join args " " <> "" ->
    main_path parse σ (Blocks σ')
      [EvDial (Options.Connection opts) (Options.Address opts) (inl c);
       EvWrite c line (Some e)].

(** * Facts about strings *)

Lemma append_assoc (a b c : string) : (a ++ b) ++ c = a ++ (b ++ c).
Proof. induction a as [|x a IH]; cbn; [reflexivity | now rewrite IH]. Qed.

Lemma append_nil_r (a : string) : a ++ "" = a.
Proof. induction a as [|x a IH]; cbn; [reflexivity | now rewrite IH]. Qed.

Lemma length_append (a b : string) :
  String.length (a ++ b) = (String.length a + String.length b)%nat.
Proof. induction a as [|x a IH]; cbn; [reflexivity | now rewrite IH]. Qed.

Lemma prefix_append (a b : string) : String.prefix a (a ++ b) = true.
Proof.
  induction a as [|x a IH]; cbn.
  - now destruct b.
  - destruct (ascii_dec x x); [exact IH | congruence].
Qed.

Lemma bytes_append (a b : string) :
  list_ascii_of_string (a ++ b) = (list_ascii_of_string a ++ list_ascii_of_string b)%list.
Proof. induction a as [|x a IH]; cbn; [reflexivity | now rewrite IH]. Qed.

Lemma bytes_inj (a b : string) :
  list_ascii_of_string a = list_ascii_of_string b -> a = b.
Proof.
  intros H. rewrite <- (string_of_list_ascii_of_string a),
    <- (string_of_list_ascii_of_string b). now rewrite H.
Qed.

Lemma substring_whole (s : string) : substring 0 (String.length s) s = s.
Proof. induction s as [|x s IH]; cbn; [reflexivity | now rewrite IH]. Qed.

Lemma substring_after (a b : string) :
  substring (String.length a) (String.length b) (a ++ b) = b.
Proof. induction a as [|x a IH]; cbn; [apply substring_whole | exact IH]. Qed.

Lemma substring_split (n : nat) (s : string) :
  (n <= String.length s)%nat ->
  s = substring 0 n s ++ substring n (String.length s - n) s.
Proof.
  revert s. induction n as [|n IH]; intros s Hn.
  - rewrite Nat.sub_0_r, substring_whole. now destruct s.
  - destruct s as [|x s]; cbn in Hn; [lia|].
    cbn. f_equal. apply IH. lia.
Qed.

(** [HasSuffix] says what it should: [s] is something followed by [suffix]. *)
Lemma HasSuffix_iff (s suffix : string) :
  HasSuffix s suffix = true <-> exists p, s = p ++ suffix.
Proof.
  unfold HasSuffix. rewrite andb_true_iff, Nat.leb_le, String.eqb_eq. split.
  - intros [Hlen Hsub].
    exists (substring 0 (String.length s - String.length suffix) s).
    pose proof (substring_split (String.length s - String.length suffix) s
                  ltac:(lia)) as E.
    replace (String.length s - (String.length s - String.length suffix))%nat
      with (String.length suffix) in E by lia.
    rewrite Hsub in E. exact E.
  - intros [p ->]. rewrite length_append. split; [lia|].
    replace (String.length p + String.length suffix - String.length suffix)%nat
      with (String.length p) by lia.
    apply substring_after.
Qed.

Lemma snoc_inj (a b : string) (c d : ascii) :
  a ++ String c "" = b ++ String d "" -> a = b /\ c = d.
Proof.
  intros H. apply (f_equal list_ascii_of_string) in H.
  rewrite !bytes_append in H. cbn in H.
  apply app_inj_tail in H as [H ->]. split; [now apply bytes_inj | reflexivity].
Qed.

Lemma snoc_view (s : string) :
  s = "" \/ exists s' c, s = s' ++ String c "".
Proof.
  induction s as [|x s IH]; [now left | right].
  destruct IH as [-> | (s' & c & ->)].
  - now exists "", x.
  - now exists (String x s'), c.
Qed.

(** A text whose last byte is a space, followed by a message and the
    newline [write] adds to it, ends in two newlines only if the message
    did. *)
Lemma no_second_newline (header msg : string) :
  (exists h, header = h ++ " ") ->
  HasSuffix msg (newline ++ newline) = false ->
  HasSuffix (header ++ msg ++ added_newline msg) (newline ++ newline) = false.
Proof.
  intros [h ->] Hnn.
  destruct (HasSuffix ((h ++ " ") ++ msg ++ added_newline msg) (newline ++ newline))
    eqn:E; [exfalso | reflexivity].
  apply HasSuffix_iff in E as [q Hq]. unfold added_newline in Hq.
  assert (Hend : forall m, (h ++ " ") ++ m = q ++ newline ->
                           exists m', m = m' ++ newline).
  { intros m Hm. destruct (snoc_view m) as [-> | (m' & c & ->)].
    - rewrite append_nil_r in Hm. apply snoc_inj in Hm as [_ Hm]. discriminate.
    - rewrite <- append_assoc in Hm. apply snoc_inj in Hm as [_ ->].
      now exists m'. }
  destruct (HasSuffix msg newline) eqn:Em; cbn [negb] in Hq.
  - apply HasSuffix_iff in Em as [m ->].
    rewrite append_nil_r, <- !append_assoc in Hq.
    apply snoc_inj in Hq as [Hq _].
    apply Hend in Hq as [m' ->].
    rewrite append_assoc in Hnn.
    assert (HasSuffix (m' ++ newline ++ newline) (newline ++ newline) = true)
      by (apply HasSuffix_iff; now exists m').
    congruence.
  - rewrite <- !append_assoc in Hq.
    apply snoc_inj in Hq as [Hq _].
    apply Hend in Hq as [m' ->].
    assert (HasSuffix (m' ++ newline) newline = true)
      by (apply HasSuffix_iff; now exists m').
    congruence.
Qed.

Lemma ends_with_newline (header msg : string) :
  HasSuffix (header ++ msg ++ added_newline msg) newline = true.
Proof.
  apply HasSuffix_iff. unfold added_newline.
  destruct (HasSuffix msg newline) eqn:Em; cbn [negb].
  - apply HasSuffix_iff in Em as [m ->]. exists (header ++ m).
    now rewrite append_nil_r, append_assoc.
  - exists (header ++ msg). now rewrite append_assoc.
Qed.

Lemma frame_split p ts host tg pid msg nl :
  frame p ts host tg pid msg nl = frame_header p ts host tg pid ++ msg ++ nl.
Proof.
  unfold frame, frame_header. now rewrite !append_assoc.
Qed.

Lemma frame_header_ends_with_space p ts host tg pid :
  exists h, frame_header p ts host tg pid = h ++ " ".
Proof.
  exists ("<" ++ fmt_d p ++ ">" ++ ts ++ " " ++ host ++ " " ++ tg
              ++ "[" ++ fmt_d pid ++ "]:").
  unfold frame_header. now rewrite !append_assoc.
Qed.


(** * Facts about the parsers *)

Lemma assoc_None k t : assoc k t = None <-> ~ In k (map fst t).
Proof.
  induction t as [|[k' v] r IH]; simpl.
  - tauto.
  - destruct (String.eqb_spec k k') as [->|Hne].
    + split; [discriminate | intros H; exfalso; apply H; now left].
    + rewrite IH. split.
      * intros H [E|E]; [congruence | tauto].
      * intros H E. apply H. now right.
Qed.

Lemma assoc_Some_In k v t : assoc k t = Some v -> In (k, v) t.
Proof.
  induction t as [|[k' v'] r IH]; simpl; [discriminate|].
  destruct (String.eqb_spec k k') as [->|Hne].
  - intros [= ->]. now left.
  - intros H. right. auto.
Qed.

Lemma Split_nonempty s sep : Split s sep <> [].
Proof.
  destruct s as [|c r]; simpl; [discriminate|].
  destruct (Ascii.eqb c sep); [discriminate|].
  destruct (Split r sep); discriminate.
Qed.

Lemma Split_head s sep : nth_error (Split s sep) 0 = Some (hd EmptyString (Split s sep)).
Proof.
  pose proof (Split_nonempty s sep) as H.
  destruct (Split s sep); [congruence | reflexivity].
Qed.

Lemma Split_without_separator s sep :
  contains_byte sep s = false -> Split s sep = [s].
Proof.
  induction s as [|x s IH]; cbn; [reflexivity|].
  destruct (Ascii.eqb x sep); [discriminate|]. cbn.
  intros H. now rewrite (IH H).
Qed.

Lemma Split_at_first_separator a b sep :
  contains_byte sep a = false ->
  Split (a ++ String sep b) sep = a :: Split b sep.
Proof.
  induction a as [|x a IH]; cbn.
  - now rewrite Ascii.eqb_refl.
  - destruct (Ascii.eqb x sep); [discriminate|]. cbn.
    intros H. now rewrite (IH H).
Qed.

Lemma invalid_facility_is_facility t : is_invalid_facility (ErrInvalidFacility t) = true.
Proof. cbn. now destruct t. Qed.

Lemma invalid_facility_not_level t : is_invalid_level (ErrInvalidFacility t) = false.
Proof. reflexivity. Qed.

Lemma invalid_level_is_level t : is_invalid_level (ErrInvalidLevel t) = true.
Proof. cbn. now destruct t. Qed.

Lemma invalid_level_not_facility t : is_invalid_facility (ErrInvalidLevel t) = false.
Proof. reflexivity. Qed.

Section ParseFacts.

Variable U : string -> string.

(** The [switch] of [facilityPriority] is a lookup of the upper-cased
    token in [facility_table]. *)
Lemma facilityPriority_lookup t :
  facilityPriority U t =
  match assoc (ToUpper U t) facility_table with
  | Some v => (v, None)
  | None => (0, Some (ErrInvalidFacility (ToUpper U t)))
  end.
Proof.
  unfold facilityPriority, facility_table, assoc.
  repeat (destruct (String.eqb (ToUpper U t) _); [reflexivity|]).
  reflexivity.
Qed.

Lemma levelPriority_lookup t :
  levelPriority U t =
  match assoc (ToUpper U t) level_spellings with
  | Some v => (v, None)
  | None => (0, Some (ErrInvalidLevel (ToUpper U t)))
  end.
Proof.
  unfold levelPriority, level_spellings, level_table, assoc.
  destruct (String.eqb (ToUpper U t) "EMERG") eqn:E1.
  { apply String.eqb_eq in E1. rewrite E1. reflexivity. }
  destruct (String.eqb (ToUpper U t) "ALERT") eqn:E2.
  { apply String.eqb_eq in E2. rewrite E2. reflexivity. }
  destruct (String.eqb (ToUpper U t) "CRIT") eqn:E3.
  { apply String.eqb_eq in E3. rewrite E3. reflexivity. }
  destruct (String.eqb (ToUpper U t) "ERR") eqn:E4.
  { apply String.eqb_eq in E4. rewrite E4. reflexivity. }
  destruct (String.eqb (ToUpper U t) "WARN") eqn:E5; [reflexivity|].
  destruct (String.eqb (ToUpper U t) "WARNING") eqn:E6; [reflexivity|].
  cbn [orb].
  destruct (String.eqb (ToUpper U t) "NOTICE"); [reflexivity|].
  destruct (String.eqb (ToUpper U t) "INFO"); [reflexivity|].
  destruct (String.eqb (ToUpper U t) "DEBUG"); reflexivity.
Qed.

(** [parsePriority] in one piece: look up the first token, then the
    second one if there is one. *)
Lemma parsePriority_run s :
  parsePriority U s =
  match assoc (ToUpper U (facility_token s)) facility_table with
  | None => Done (0, Some (ErrInvalidFacility (ToUpper U (facility_token s))))
  | Some fv =>
      match level_token s with
      | None => RuntimePanic "runtime error: index out of range [1] with length 1"
      | Some t1 =>
          match assoc (ToUpper U t1) level_spellings with
          | None => Done (0, Some (ErrInvalidLevel (ToUpper U t1)))
          | Some lv => Done (Z.lor fv lv, None)
          end
      end
  end.
Proof.
  unfold parsePriority, elem_at, facility_token, level_token.
  rewrite Split_head, facilityPriority_lookup.
  destruct (assoc _ facility_table) as [fv|]; [|reflexivity].
  pose proof (Split_nonempty s ".") as Hne.
  destruct (Split s ".") as [|a [|b r]]; [congruence | reflexivity |].
  cbn [nth_error]. rewrite levelPriority_lookup.
  destruct (assoc _ level_spellings); reflexivity.
Qed.

Lemma facility_values_in_range k fv :
  In (k, fv) facility_table ->
  Z.land fv facilityMask = fv /\ Z.land fv severityMask = 0 /\
  0 <= fv <= LOG_LOCAL7 /\ ~ (12 <= Z.shiftr fv 3 <= 15).
Proof.
  unfold facility_table. cbn [In]. intros H.
  repeat (destruct H as [H|H];
          [injection H as _ <-; repeat split; try reflexivity;
           cbv; intuition congruence|]).
  contradiction.
Qed.

Lemma level_values_in_range k lv :
  In (k, lv) level_spellings ->
  Z.land lv severityMask = lv /\ Z.land lv facilityMask = 0 /\ 0 <= lv <= LOG_DEBUG.
Proof.
  unfold level_spellings, level_table. cbn [In]. intros H.
  repeat (destruct H as [H|H];
          [injection H as _ <-; repeat split; try reflexivity;
           cbv; congruence|]).
  contradiction.
Qed.

(** Two fields that do not overlap are packed within [LOG_LOCAL7|LOG_DEBUG]. *)
Lemma packed_in_range kf fv kl lv :
  In (kf, fv) facility_table -> In (kl, lv) level_spellings ->
  0 <= Z.lor fv lv <= Z.lor LOG_LOCAL7 LOG_DEBUG.
Proof.
  unfold facility_table, level_spellings, level_table. cbn [In]. intros Hf Hl.
  repeat (destruct Hf as [Hf|Hf]; [injection Hf as _ <-|]); try contradiction;
  repeat (destruct Hl as [Hl|Hl]; [injection Hl as _ <-|]); try contradiction;
  vm_compute; split; congruence.
Qed.

(** The parse does not depend on the case of the two tokens: tokens
    without a ['.'] whose upper-cased forms are accepted give the packed
    priority. *)
Lemma parsePriority_any_case f l kf fv kl lv :
  In (kf, fv) facility_table -> In (kl, lv) level_spellings ->
  ToUpper U f = kf -> ToUpper U l = kl ->
  contains_byte "." f = false -> contains_byte "." l = false ->
  parsePriority U (f ++ "." ++ l) = Done (Z.lor fv lv, None).
Proof.
  intros Hf Hl Ef El Df Dl. rewrite parsePriority_run.
  unfold facility_token, level_token.
  change (f ++ "." ++ l) with (f ++ String "." l).
  rewrite (Split_at_first_separator _ _ _ Df), (Split_without_separator _ _ Dl).
  cbn [hd nth_error]. rewrite Ef, El. clear Ef El Df Dl.
  unfold facility_table, level_spellings, level_table in Hf, Hl. cbn [In] in Hf, Hl.
  repeat (destruct Hf as [Hf|Hf]; [injection Hf as <- <-|]); try contradiction;
  repeat (destruct Hl as [Hl|Hl]; [injection Hl as <- <-|]); try contradiction;
  reflexivity.
Qed.

End ParseFacts.

(** * Facts about the writer *)

(** Unfolds one call down to the oracles of the world. *)
Ltac go_run :=
  unfold writeAndRetry, connect, Close, net_conn_Close, net_Dial_call,
    write, writeString, Fprintf_conn, bind, defer, the_writer, the_world,
    update_writer, emit, mu_Lock, mu_Unlock, ret, panic,
    wire_line, added_newline, effective_priority, connected in *;
  cbn -[frame HasSuffix newline Z.lor Z.land String.eqb] in *.

Lemma write_run p msg w σ c :
  conn w = Some c ->
  write p msg (w, σ) =
  let data := wire_line p w σ msg in
  let res := conn_Write σ (List.length (trace σ)) c data in
  Returns (match res with
           | Some e => (0, Some (net_error e))
           | None => (Z.of_nat (String.length msg), None)
           end)
          (w, log (EvWrite c data res) σ).
Proof.
  intros Hc. go_run. rewrite Hc. cbn.
  destruct (conn_Write σ _ c _); reflexivity.
Qed.

Lemma write_nil_conn p msg w σ :
  conn w = None ->
  write p msg (w, σ) =
  Panics "runtime error: invalid memory address or nil pointer dereference" (w, σ).
Proof.
  intros Hc. go_run. rewrite Hc. reflexivity.
Qed.

Lemma writeAndRetry_locked p s w σ :
  mu w = true -> writeAndRetry p s (w, σ) = Blocks (w, σ).
Proof.
  intros Hm. go_run. rewrite Hm. reflexivity.
Qed.

Lemma writeAndRetry_first_write_ok p s w σ c :
  mu w = false -> conn w = Some c ->
  conn_Write σ (List.length (trace σ)) c
             (wire_line (effective_priority w p) w σ s) = None ->
  writeAndRetry p s (w, σ) =
  Returns (Z.of_nat (String.length s), None)
          (w, log (EvWrite c (wire_line (effective_priority w p) w σ s) None) σ).
Proof.
  intros Hm Hc Hw. destruct w as [wp tg hn nw ra m cn]. cbn in Hm, Hc. subst m cn.
  go_run. rewrite Hw. reflexivity.
Qed.

(** A failed write on a live connection leads into [connect], which calls
    [Close] while [w.mu] is held: [Close] stops at its own [Lock]. *)
Lemma writeAndRetry_first_write_fails p s w σ c e :
  mu w = false -> conn w = Some c ->
  conn_Write σ (List.length (trace σ)) c
             (wire_line (effective_priority w p) w σ s) = Some e ->
  writeAndRetry p s (w, σ) =
  Blocks (set_mu true w,
          log (EvWrite c (wire_line (effective_priority w p) w σ s) (Some e)) σ).
Proof.
  intros Hm Hc Hw. destruct w as [wp tg hn nw ra m cn]. cbn in Hm, Hc. subst m cn.
  go_run. rewrite Hw. reflexivity.
Qed.

Lemma writeAndRetry_dial_fails p s w σ e :
  mu w = false -> conn w = None ->
  net_Dial σ (List.length (trace σ)) (network w) (raddr w) = inr e ->
  writeAndRetry p s (w, σ) =
  Returns (0, Some (net_error e))
          (w, log (EvDial (network w) (raddr w) (inr e)) σ).
Proof.
  intros Hm Hc Hd. destruct w as [wp tg hn nw ra m cn]. cbn in Hm, Hc. subst m cn.
  go_run. rewrite Hd. reflexivity.
Qed.

Lemma writeAndRetry_dial_ok p s w σ c :
  mu w = false -> conn w = None ->
  net_Dial σ (List.length (trace σ)) (network w) (raddr w) = inl c ->
  writeAndRetry p s (w, σ) =
  let w1 := connected c w in
  let σ1 := log (EvDial (network w) (raddr w) (inl c)) σ in
  let data := wire_line (effective_priority w p) w1 σ1 s in
  let res := conn_Write σ1 (List.length (trace σ1)) c data in
  Returns (match res with
           | Some e => (0, Some (net_error e))
           | None => (Z.of_nat (String.length s), None)
           end)
          (w1, log (EvWrite c data res) σ1).
Proof.
  intros Hm Hc Hd. destruct w as [wp tg hn nw ra m cn]. cbn in Hm, Hc. subst m cn.
  go_run. rewrite Hd. cbn -[frame HasSuffix newline Z.lor Z.land String.eqb].
  destruct (String.eqb hn ""); cbn -[frame HasSuffix newline Z.lor Z.land];
    match goal with |- context [conn_Write ?a ?b ?c ?d] =>
      destruct (conn_Write a b c d) end; reflexivity.
Qed.

Lemma events_since_app tr evs : events_since tr (tr ++ evs) = evs.
Proof.
  unfold events_since. rewrite skipn_app, skipn_all, Nat.sub_diag. reflexivity.
Qed.

Lemma events_since_same tr : events_since tr tr = [].
Proof. unfold events_since. apply skipn_all. Qed.

Lemma new_events_log1 {A} σ (o : outcome Machine A) e :
  trace (snd (final_state o)) = trace (log e σ) -> new_events σ o = [e].
Proof. unfold new_events. intros ->. apply events_since_app. Qed.

Lemma new_events_log2 {A} σ (o : outcome Machine A) e1 e2 :
  trace (snd (final_state o)) = trace (log e2 (log e1 σ)) ->
  new_events σ o = [e1; e2].
Proof.
  unfold new_events. intros ->. cbn. rewrite <- app_assoc.
  apply events_since_app.
Qed.

(** Every call of [writeAndRetry] takes one of the five ways. *)
Lemma writeAndRetry_paths p s w σ :
  retry_path p s w σ (writeAndRetry p s (w, σ))
                     (new_events σ (writeAndRetry p s (w, σ))).
Proof.
  destruct (mu w) eqn:Hm.
  { rewrite (writeAndRetry_locked _ _ _ _ Hm). unfold new_events. cbn.
    rewrite events_since_same. now constructor. }
  destruct (conn w) as [c|] eqn:Hc.
  - destruct (conn_Write σ (List.length (trace σ)) c
                (wire_line (effective_priority w p) w σ s)) as [e|] eqn:Hw.
    + rewrite (writeAndRetry_first_write_fails _ _ _ _ _ _ Hm Hc Hw).
      erewrite new_events_log1 by reflexivity. now econstructor.
    + rewrite (writeAndRetry_first_write_ok _ _ _ _ _ Hm Hc Hw).
      erewrite new_events_log1 by reflexivity. now econstructor.
  - destruct (net_Dial σ (List.length (trace σ)) (network w) (raddr w))
      as [c|e] eqn:Hd.
    + rewrite (writeAndRetry_dial_ok _ _ _ _ _ Hm Hc Hd). cbn zeta.
      erewrite new_events_log2 by reflexivity. now econstructor.
    + rewrite (writeAndRetry_dial_fails _ _ _ _ _ Hm Hc Hd).
      erewrite new_events_log1 by reflexivity. now econstructor.
Qed.

(** [Dial] in one piece. *)
Lemma Dial_run network raddr p tag hostname σ :
  Dial network raddr p tag hostname σ =
  if (p <? 0) || (p >? Z.lor LOG_LOCAL7 LOG_DEBUG)
  then Returns (None, Some ErrInvalidPriority) σ
  else
    match (if (tag =? "")%string then elem_at (os_Args σ) 0 else Done tag) with
    | RuntimePanic msg => Panics msg σ
    | Done tag' =>
        let hostname' :=
          if (hostname =? "")%string then fst (os_Hostname σ) else hostname in
        let res := net_Dial σ (List.length (trace σ)) network raddr in
        let σ' := log (EvDial network raddr res) σ in
        match res with
        | inl c =>
            Returns (Some (connected c (mkWriter p tag' hostname' network
                                                 raddr false None)), None) σ'
        | inr e => Returns (None, Some (net_error e)) σ'
        end
    end.
Proof.
  unfold Dial.
  destruct ((p <? 0) || (p >? Z.lor LOG_LOCAL7 LOG_DEBUG)); [reflexivity|].
  destruct (if (tag =? "")%string then elem_at (os_Args σ) 0 else Done tag)
    as [tag'|msg]; [|reflexivity].
  go_run.
  destruct (net_Dial σ (List.length (trace σ)) network raddr) as [c|e];
    cbn -[String.eqb]; [|reflexivity].
  destruct (String.eqb _ ""); reflexivity.
Qed.

(** * The parser: totality, mnemonics, errors, range *)

(** C1. [parsePriority] is not total: on an input without a ['.'] whose
    only token is an accepted facility, the split has one token and
    [tokens[1]] is out of bounds, so the call panics instead of returning
    a priority or an error.  This happens exactly when the facility token
    is accepted and there is no level token; ["user"] is such an input. *)
Theorem parsePriority_panics_without_level (U : string -> string) :
  parsePriority U "user"
    = RuntimePanic "runtime error: index out of range [1] with length 1"
  /\ forall s,
       (exists msg, parsePriority U s = RuntimePanic msg)
       <-> (In (ToUpper U (facility_token s)) facility_mnemonics
            /\ level_token s = None).
Proof.
  split; [reflexivity|].
  intros s. rewrite parsePriority_run.
  destruct (assoc (ToUpper U (facility_token s)) facility_table) as [fv|] eqn:Ef.
  - assert (Hin : In (ToUpper U (facility_token s)) facility_mnemonics).
    { apply assoc_Some_In in Ef. unfold facility_mnemonics.
      change (ToUpper U (facility_token s))
        with (fst (ToUpper U (facility_token s), fv)).
      now apply in_map. }
    destruct (level_token s) as [t1|].
    + split.
      * intros [msg H]. destruct (assoc (ToUpper U t1) level_spellings); discriminate.
      * intros [_ H]. discriminate.
    + split; [auto | intros _; eauto].
  - apply assoc_None in Ef. split.
    + intros [msg H]. discriminate.
    + intros [H _]. contradiction.
Qed.

(** C5. For each of the 20 facility mnemonics [f] with value [fv] and
    each of the 8 level mnemonics [l] with value [lv], [parsePriority]
    succeeds on [f ++ "." ++ l] and returns [fv | lv], where [fv] and [lv]
    are what [facilityPriority] and [levelPriority] return for [f] and
    [l]; the two fields do not overlap, so [fv | lv] is also the masked
    combination [(fv & facilityMask) | (lv & severityMask)]. *)
Theorem parsePriority_of_mnemonics (U : string -> string)
    (f l : string) (fv lv : Priority) :
  In (f, fv) facility_table ->
  In (l, lv) level_table ->
  parsePriority U (f ++ "." ++ l) = Done (Z.lor fv lv, None)
  /\ facilityPriority U f = (fv, None)
  /\ levelPriority U l = (lv, None)
  /\ Z.lor fv lv = Z.lor (Z.land fv facilityMask) (Z.land lv severityMask).
Proof.
  unfold facility_table, level_table. cbn [In]. intros Hf Hl.
  repeat (destruct Hf as [Hf|Hf]; [injection Hf as <- <-|]); try contradiction;
  repeat (destruct Hl as [Hl|Hl]; [injection Hl as <- <-|]); try contradiction;
  repeat split; reflexivity.
Qed.

Example parsePriority_lower_case (U : string -> string) :
  parsePriority U "local3.warn" = Done (Z.lor LOG_LOCAL3 LOG_WARNING, None)
  /\ parsePriority U "User.Notice" = Done (Z.lor LOG_USER LOG_NOTICE, None)
  /\ parsePriority U "user.notice.extra" = Done (Z.lor LOG_USER LOG_NOTICE, None).
Proof. repeat split; reflexivity. Qed.

Lemma table_sizes :
  List.length facility_table = 20%nat /\ NoDup facility_mnemonics
  /\ List.length level_table = 8%nat /\ NoDup level_mnemonics.
Proof.
  repeat split; try reflexivity;
    repeat (constructor; [cbn; intuition discriminate|]); constructor.
Qed.

Lemma parsePriority_of_mnemonics_witness :
  In ("LOCAL3", LOG_LOCAL3) facility_table
  /\ In ("ERR", LOG_ERR) level_table
  /\ parsePriority (fun s => s) "LOCAL3.ERR" = Done (155, None).
Proof.
  assert (Hf : In ("LOCAL3", LOG_LOCAL3) facility_table)
    by (unfold facility_table; cbn [In]; do 15 right; left; reflexivity).
  assert (Hl : In ("ERR", LOG_ERR) level_table)
    by (unfold level_table; cbn [In]; do 3 right; left; reflexivity).
  split; [exact Hf | split; [exact Hl|]].
  exact (proj1 (parsePriority_of_mnemonics (fun s => s) "LOCAL3" "ERR"
                  LOG_LOCAL3 LOG_ERR Hf Hl)).
Defined.

(** C6, the claim as stated fails: on ["bogus.bogus"] the level token is
    not an accepted level, yet [parsePriority] does not fail with an
    invalid-level error; the facility is looked at first and its error is
    the one returned. *)
Lemma bad_level_hidden_by_bad_facility :
  ~ (forall (U : string -> string) (s t1 : string),
       level_token s = Some t1 ->
       (fails_invalid_level (parsePriority U s) = true
        <-> ~ In (ToUpper U t1) accepted_levels)).
Proof.
  intros H.
  destruct (H (fun x => x) "bogus.bogus" "bogus" eq_refl) as [_ H'].
  assert (E : fails_invalid_level (parsePriority (fun x => x) "bogus.bogus") = true).
  { apply H'. cbn. intuition discriminate. }
  discriminate E.
Qed.

(** C6, amended.  [parsePriority] fails with an invalid-facility error
    exactly when the upper-cased facility token is not one of the 20
    facility mnemonics, and the error names that token; no token yields a
    facility in the codes 12 to 15.  It fails with an invalid-level error
    exactly when the facility token is accepted, a level token is present
    and its upper-cased form is none of the 8 level mnemonics nor the
    alias [WARN], which is accepted as [WARNING].  Token by token:
    [facilityPriority] and [levelPriority] return an error exactly on the
    tokens that are not accepted. *)
Theorem parsePriority_errors (U : string -> string) (s : string) :
  (fails_invalid_facility (parsePriority U s) = true
   <-> ~ In (ToUpper U (facility_token s)) facility_mnemonics)
  /\ (~ In (ToUpper U (facility_token s)) facility_mnemonics ->
      parsePriority U s
        = Done (0, Some (ErrInvalidFacility (ToUpper U (facility_token s)))))
  /\ (fails_invalid_level (parsePriority U s) = true
      <-> In (ToUpper U (facility_token s)) facility_mnemonics
          /\ exists t1, level_token s = Some t1
                        /\ ~ In (ToUpper U t1) accepted_levels)
  /\ (forall t,
        (snd (facilityPriority U t) = Some (ErrInvalidFacility (ToUpper U t))
         <-> ~ In (ToUpper U t) facility_mnemonics)
        /\ (snd (facilityPriority U t) = None
            <-> In (ToUpper U t) facility_mnemonics)
        /\ ~ (12 <= Z.shiftr (fst (facilityPriority U t)) 3 <= 15))
  /\ (forall t,
        (snd (levelPriority U t) = Some (ErrInvalidLevel (ToUpper U t))
         <-> ~ In (ToUpper U t) accepted_levels)
        /\ (snd (levelPriority U t) = None
            <-> In (ToUpper U t) accepted_levels)
        /\ (ToUpper U t = "WARN" \/ ToUpper U t = "WARNING" ->
            levelPriority U t = (LOG_WARNING, None))).
Proof.
  assert (Hmem : forall k tbl, In k (map fst tbl) <-> assoc k tbl <> None).
  { intros k tbl. pose proof (assoc_None k tbl) as A.
    destruct (assoc k tbl).
    - split; [discriminate|]. intros _.
      destruct (in_dec string_dec k (map fst tbl)) as [i|n]; [exact i|].
      apply A in n. discriminate.
    - split; [|congruence]. intros i. apply A in i; [contradiction | reflexivity]. }
  unfold facility_mnemonics, accepted_levels.
  rewrite parsePriority_run.
  split; [|split; [|split; [|split]]].
  - (* invalid facility, both directions *)
    destruct (assoc (ToUpper U (facility_token s)) facility_table) eqn:Ef.
    + split.
      * destruct (level_token s) as [t1|]; [|discriminate].
        destruct (assoc (ToUpper U t1) level_spellings);
          unfold fails_invalid_facility;
          rewrite ?invalid_level_not_facility; discriminate.
      * intros Hn. apply assoc_None in Hn. congruence.
    + split.
      * intros _. now apply assoc_None.
      * intros _. unfold fails_invalid_facility.
        apply invalid_facility_is_facility.
  - intros Hn. apply assoc_None in Hn. now rewrite Hn.
  - (* invalid level, both directions *)
    destruct (assoc (ToUpper U (facility_token s)) facility_table) eqn:Ef.
    + assert (Hin : In (ToUpper U (facility_token s)) (map fst facility_table))
        by (apply Hmem; congruence).
      destruct (level_token s) as [t1|].
      * destruct (assoc (ToUpper U t1) level_spellings) eqn:El.
        -- split; [discriminate|].
           intros [_ (t & [= <-] & Hn)]. apply assoc_None in Hn. congruence.
        -- split.
           ++ intros _. split; [exact Hin|]. exists t1.
              split; [reflexivity | now apply assoc_None].
           ++ intros _. unfold fails_invalid_level.
              apply invalid_level_is_level.
      * split; [discriminate|]. intros [_ (t & [=] & _)].
    + split.
      * unfold fails_invalid_level. rewrite invalid_facility_not_level.
        discriminate.
      * intros [Hin _]. apply Hmem in Hin. congruence.
  - (* facilityPriority *)
    intros t. rewrite facilityPriority_lookup.
    destruct (assoc (ToUpper U t) facility_table) as [fv|] eqn:Ef; cbn [fst snd].
    + assert (Hin : In (ToUpper U t) (map fst facility_table))
        by (apply Hmem; congruence).
      split; [split; [discriminate | intros Hn; contradiction]|].
      split; [split; [intros _; exact Hin | reflexivity]|].
      apply assoc_Some_In in Ef. now apply facility_values_in_range in Ef.
    + assert (Hn : ~ In (ToUpper U t) (map fst facility_table))
        by now apply assoc_None.
      split; [split; [intros _; exact Hn | reflexivity]|].
      split; [split; [discriminate | intros Hin; contradiction]|].
      cbn. lia.
  - (* levelPriority *)
    intros t. rewrite levelPriority_lookup.
    destruct (assoc (ToUpper U t) level_spellings) as [lv|] eqn:El; cbn [fst snd].
    + assert (Hin : In (ToUpper U t) (map fst level_spellings))
        by (apply Hmem; congruence).
      split; [split; [discriminate | intros Hn; contradiction]|].
      split; [split; [intros _; exact Hin | reflexivity]|].
      intros [E|E]; rewrite E in El; cbn in El; congruence.
    + assert (Hn : ~ In (ToUpper U t) (map fst level_spellings))
        by now apply assoc_None.
      split; [split; [intros _; exact Hn | reflexivity]|].
      split; [split; [discriminate | intros Hin; contradiction]|].
      intros [E|E]; rewrite E in El; cbn in El; discriminate.
Qed.

(** * Dial *)

Lemma invalid_priority_guard (p : Priority) :
  (p <? 0) || (p >? Z.lor LOG_LOCAL7 LOG_DEBUG) = true
  <-> (p < 0 \/ p > Z.lor LOG_LOCAL7 LOG_DEBUG).
Proof.
  rewrite orb_true_iff, Z.ltb_lt, Z.gtb_gt. lia.
Qed.

Lemma Dial_in_range_error network raddr p tag hostname σ :
  0 <= p <= Z.lor LOG_LOCAL7 LOG_DEBUG ->
  dial_error (Dial network raddr p tag hostname σ) <> Some ErrInvalidPriority.
Proof.
  intros Hp. rewrite Dial_run.
  destruct ((p <? 0) || (p >? Z.lor LOG_LOCAL7 LOG_DEBUG)) eqn:G.
  { apply invalid_priority_guard in G. lia. }
  destruct (if (tag =? "")%string then elem_at (os_Args σ) 0 else Done tag);
    [|discriminate].
  cbn zeta.
  destruct (net_Dial σ (List.length (trace σ)) network raddr); discriminate.
Qed.

(** C7. [Dial] returns the invalid-priority error exactly when the
    priority is below 0 or above [LOG_LOCAL7|LOG_DEBUG]; it then returns
    no writer and does nothing on the network.  For a priority within the
    range, and a tag that resolves (a tag is given, or [os.Args] has its
    element 0), [Dial] resolves the tag and the hostname and makes one
    connection attempt to [network], [raddr]: it returns the connected
    writer when the attempt succeeds and the attempt's error otherwise. *)
Theorem Dial_rejects_exactly_invalid_priorities
    (network raddr : string) (p : Priority) (tag hostname : string)
    (σ : World) :
  let o := Dial network raddr p tag hostname σ in
  (dial_error o = Some ErrInvalidPriority
   <-> (p < 0 \/ p > Z.lor LOG_LOCAL7 LOG_DEBUG))
  /\ ((p < 0 \/ p > Z.lor LOG_LOCAL7 LOG_DEBUG) ->
      o = Returns (None, Some ErrInvalidPriority) σ)
  /\ (0 <= p <= Z.lor LOG_LOCAL7 LOG_DEBUG ->
      forall tag',
        (if (tag =? "")%string then nth_error (os_Args σ) 0 else Some tag)
          = Some tag' ->
        let hostname' :=
          if (hostname =? "")%string then fst (os_Hostname σ) else hostname in
        let attempt := net_Dial σ (List.length (trace σ)) network raddr in
        let w := mkWriter p tag' hostname' network raddr false None in
        trace (final_state o) = (trace σ ++ [EvDial network raddr attempt])%list
        /\ o = match attempt with
               | inl c =>
                   Returns (Some (connected c w), None)
                           (log (EvDial network raddr attempt) σ)
               | inr e =>
                   Returns (None, Some (net_error e))
                           (log (EvDial network raddr attempt) σ)
               end).
Proof.
  cbn zeta.
  assert (Hout : (p < 0 \/ p > Z.lor LOG_LOCAL7 LOG_DEBUG) ->
                 Dial network raddr p tag hostname σ
                 = Returns (None, Some ErrInvalidPriority) σ).
  { intros Hp. apply invalid_priority_guard in Hp.
    rewrite Dial_run, Hp. reflexivity. }
  split; [split|split].
  - intros He.
    destruct (Z_lt_dec p 0) as [|Hge]; [now left|].
    destruct (Z_gt_dec p (Z.lor LOG_LOCAL7 LOG_DEBUG)) as [|Hle]; [now right|].
    exfalso. revert He. apply Dial_in_range_error. lia.
  - intros Hp. now rewrite (Hout Hp).
  - exact Hout.
  - intros Hp tag' Htag. rewrite Dial_run.
    destruct ((p <? 0) || (p >? Z.lor LOG_LOCAL7 LOG_DEBUG)) eqn:G.
    { apply invalid_priority_guard in G. lia. }
    assert (Ht : (if (tag =? "")%string then elem_at (os_Args σ) 0 else Done tag)
                 = Done tag').
    { destruct (String.eqb tag ""); [|congruence].
      unfold elem_at. now rewrite Htag. }
    rewrite Ht. cbn zeta.
    destruct (net_Dial σ (List.length (trace σ)) network raddr);
      split; reflexivity.
Qed.

(** C10. A priority that [parsePriority] returns without an error lies
    within [0, LOG_LOCAL7|LOG_DEBUG], so [Dial] never answers it with the
    invalid-priority error. *)
Theorem parsed_priority_accepted_by_Dial
    (U : string -> string) (s : string) (p : Priority) :
  parsePriority U s = Done (p, None) ->
  0 <= p <= Z.lor LOG_LOCAL7 LOG_DEBUG
  /\ forall network raddr tag hostname σ,
       dial_error (Dial network raddr p tag hostname σ)
         <> Some ErrInvalidPriority.
Proof.
  intros H. rewrite parsePriority_run in H.
  assert (Hp : 0 <= p <= Z.lor LOG_LOCAL7 LOG_DEBUG).
  { destruct (assoc (ToUpper U (facility_token s)) facility_table)
      as [fv|] eqn:Ef; [|discriminate].
    destruct (level_token s) as [t1|]; [|discriminate].
    destruct (assoc (ToUpper U t1) level_spellings) as [lv|] eqn:El;
      [|discriminate].
    injection H as <-.
    apply assoc_Some_In in Ef. apply assoc_Some_In in El.
    exact (packed_in_range _ _ _ _ Ef El). }
  split; [exact Hp|]. intros. now apply Dial_in_range_error.
Qed.

Lemma parsed_priority_accepted_by_Dial_witness :
  parsePriority (fun s => s) "local3.err" = Done (155, None)
  /\ 0 <= 155 <= Z.lor LOG_LOCAL7 LOG_DEBUG
  /\ dial_error (Dial "tcp" ":1514" 155 "svc" "" demo_world)
       <> Some ErrInvalidPriority.
Proof.
  split; [reflexivity|].
  pose proof (parsed_priority_accepted_by_Dial (fun s => s) "local3.err" 155
                eq_refl) as [Hr Hd].
  split; [exact Hr | apply Hd].
Defined.

Example Dial_demo :
  Dial "tcp" ":1514" (Z.lor LOG_LOCAL3 LOG_ERR) "svc" "" demo_world
    = Returns (Some (demo_writer 155), None)
              (log (EvDial "tcp" ":1514" (inl (mkConn 0 "127.0.0.1:40000")))
                   demo_world)
  /\ Dial "tcp" ":1514" 192 "svc" "" demo_world
     = Returns (None, Some ErrInvalidPriority) demo_world
  /\ Dial "tcp" ":1514" (-1) "svc" "" demo_world
     = Returns (None, Some ErrInvalidPriority) demo_world.
Proof. repeat split; reflexivity. Qed.

(** * Emission *)




(** The per-severity entry points and [Write] go through [writeAndRetry]
    and leave the state it leaves. *)
Lemma entry_points_final_state m st :
  final_state (Emerg m st) = final_state (writeAndRetry LOG_EMERG m st)
  /\ final_state (Alert m st) = final_state (writeAndRetry LOG_ALERT m st)
  /\ final_state (Crit m st) = final_state (writeAndRetry LOG_CRIT m st)
  /\ final_state (Err m st) = final_state (writeAndRetry LOG_ERR m st)
  /\ final_state (Warning m st) = final_state (writeAndRetry LOG_WARNING m st)
  /\ final_state (Notice m st) = final_state (writeAndRetry LOG_NOTICE m st)
  /\ final_state (Info m st) = final_state (writeAndRetry LOG_INFO m st)
  /\ final_state (Debug m st) = final_state (writeAndRetry LOG_DEBUG m st)
  /\ Write m st = writeAndRetry (priority (fst st)) m st.
Proof.
  unfold Emerg, Alert, Crit, Err, Warning, Notice, Info, Debug, bind, ret.
  repeat split;
    try (match goal with |- context [writeAndRetry ?p m st] =>
           destruct (writeAndRetry p m st) end; reflexivity).
Qed.


Example Info_on_USER_NOTICE_writer :
  Info "hello" (demo_writer (Z.lor LOG_USER LOG_NOTICE), demo_world)
  = Returns None
      (demo_writer (Z.lor LOG_USER LOG_NOTICE),
       log (EvWrite (mkConn 0 "127.0.0.1:40000")
                    ("<14>2006-01-02T15:04:05Z myhost svc[4242]: hello" ++ newline)
                    None)
           demo_world).
Proof. reflexivity. Qed.

(** * Write with retry *)

(** No call makes more than one connection attempt, and no call makes a
    second write: the write after a reconnect is only reached from a
    writer that held no connection. *)
Lemma writeAndRetry_attempts p s w σ :
  (dial_attempts (new_events σ (writeAndRetry p s (w, σ))) <= 1)%nat
  /\ (write_attempts (new_events σ (writeAndRetry p s (w, σ))) <= 1)%nat.
Proof.
  destruct (writeAndRetry_paths p s w σ); cbn; lia.
Qed.


(** C3, the code at a failing input: a writer that holds a connection
    ([demo_writer]) in a world where the receiver has gone away
    ([severed_world]: the write fails, a new connection would succeed).
    The first write fails; [connect] then calls [Close] with [w.mu] held
    and [Close] stops at its own [Lock].  The call does not return, no
    reconnect is attempted and the write is not retried; the mutex stays
    locked. *)
Theorem writeAndRetry_stuck_on_severed_connection :
  let w := demo_writer (Z.lor LOG_USER LOG_NOTICE) in
  let line := "<14>2006-01-02T15:04:05Z myhost svc[4242]: hello" ++ newline in
  let failed :=
    EvWrite (mkConn 0 "127.0.0.1:40000") line
            (Some (mkOpError "write" "broken pipe")) in
  writeAndRetry LOG_INFO "hello" (w, severed_world)
    = Blocks (set_mu true w, log failed severed_world)
  /\ new_events severed_world
       (writeAndRetry LOG_INFO "hello" (w, severed_world)) = [failed]
  /\ net_Dial severed_world 1 "tcp" ":1514" = inl (mkConn 1 "127.0.0.1:40001")
  /\ connect (set_mu true w, log failed severed_world)
     = Blocks (set_mu true w, log failed severed_world).
Proof. repeat split; reflexivity. Qed.

(** * The frame and the byte count *)



(** C8. The line [write] puts on the wire is the header, the message and
    the newline [write] adds: a newline when the message does not end in
    one, nothing when it does.  The line always ends in a newline, and it
    ends in two newlines only if the message itself did: a message
    without a trailing newline or with a single one gives a line with
    exactly one. *)
Theorem write_frames_with_one_newline
    (p : Priority) (msg : string) (w : Writer) (σ : World) (c : Conn) :
  conn w = Some c ->
  let header :=
    frame_header p (time_Now_RFC3339 σ (List.length (trace σ)))
                 (hostname w) (tag w) (os_Getpid σ) in
  let nl := if HasSuffix msg newline then "" else newline in
  wire (new_events σ (write p msg (w, σ))) = [header ++ msg ++ nl]
  /\ (HasSuffix msg newline = false -> nl = newline)
  /\ (HasSuffix msg newline = true -> nl = "")
  /\ HasSuffix (header ++ msg ++ nl) newline = true
  /\ (HasSuffix msg (newline ++ newline) = false ->
      HasSuffix (header ++ msg ++ nl) (newline ++ newline) = false).
Proof.
  intros Hc. cbn zeta.
  assert (Enl : (if HasSuffix msg newline then "" else newline)
                = added_newline msg).
  { unfold added_newline. now destruct (HasSuffix msg newline). }
  rewrite Enl. split; [|split; [|split; [|split]]].
  - rewrite (write_run _ _ _ _ _ Hc). cbn zeta.
    erewrite new_events_log1 by reflexivity. cbn [wire].
    unfold wire_line. now rewrite frame_split.
  - unfold added_newline. now intros ->.
  - unfold added_newline. now intros ->.
  - apply ends_with_newline.
  - apply no_second_newline, frame_header_ends_with_space.
Qed.

Lemma write_frames_with_one_newline_witness :
  conn (demo_writer 14) = Some (mkConn 0 "127.0.0.1:40000")
  /\ wire (new_events demo_world (write 14 "hello" (demo_writer 14, demo_world)))
     = ["<14>2006-01-02T15:04:05Z myhost svc[4242]: " ++ "hello" ++ newline]
  /\ wire (new_events demo_world
             (write 14 ("hello" ++ newline) (demo_writer 14, demo_world)))
     = ["<14>2006-01-02T15:04:05Z myhost svc[4242]: "
          ++ ("hello" ++ newline) ++ ""].
Proof.
  split; [reflexivity|]. split.
  - exact (proj1 (write_frames_with_one_newline 14 "hello" (demo_writer 14)
                    demo_world (mkConn 0 "127.0.0.1:40000") eq_refl)).
  - exact (proj1 (write_frames_with_one_newline 14 ("hello" ++ newline)
                    (demo_writer 14) demo_world (mkConn 0 "127.0.0.1:40000")
                    eq_refl)).
Defined.

(** * End to end *)

(** C9, the claim as stated fails: a writer dialed to [:1514] with
    [LOG_LOCAL3|LOG_ERR] and tag ["svc"] sends, for [Debug("disk full")],
    a line that begins with [<159>]; it does not begin with [<187>]. *)
Lemma Debug_line_does_not_begin_with_187 :
  exists w σ1 line,
    Dial "tcp" ":1514" (Z.lor LOG_LOCAL3 LOG_ERR) "svc" "" demo_world
      = Returns (Some w, None) σ1
    /\ wire (new_events σ1 (Debug "disk full" (w, σ1))) = [line]
    /\ line = "<159>2006-01-02T15:04:05Z myhost svc[4242]: disk full" ++ newline
    /\ String.prefix "<187>" line = false.
Proof.
  eexists _, _, _. repeat split; reflexivity.
Qed.

(** C9, amended.  For a writer that [Dial] returned for facility
    [LOG_LOCAL3], severity [LOG_ERR] and tag ["svc"], [Debug("disk full")]
    makes one write, of the line [<159>], timestamp, hostname,
    [svc[pid]: disk full] and a newline, 159 being the decimal value of
    [LOG_LOCAL3|LOG_DEBUG]; when the transport accepts the line, [Debug]
    returns no error. *)
Theorem Debug_on_LOCAL3_writer_sends_159
    (net addr host : string) (σ σ1 : World) (w : Writer) :
  Dial net addr (Z.lor LOG_LOCAL3 LOG_ERR) "svc" host σ
    = Returns (Some w, None) σ1 ->
  let line :=
    "<159>" ++ time_Now_RFC3339 σ1 (List.length (trace σ1)) ++ " "
            ++ hostname w ++ " " ++ "svc" ++ "[" ++ fmt_d (os_Getpid σ1)
            ++ "]: " ++ "disk full" ++ newline in
  Z.lor LOG_LOCAL3 LOG_DEBUG = 159
  /\ wire (new_events σ1 (Debug "disk full" (w, σ1))) = [line]
  /\ String.prefix "<159>" line = true
  /\ (forall c, conn w = Some c ->
        conn_Write σ1 (List.length (trace σ1)) c line = None ->
        exists st, Debug "disk full" (w, σ1) = Returns None st).
Proof.
  intros HD. cbn zeta. rewrite Dial_run in HD. cbn [orb] in HD.
  change ((Z.lor LOG_LOCAL3 LOG_ERR <? 0)
          || (Z.lor LOG_LOCAL3 LOG_ERR >? Z.lor LOG_LOCAL7 LOG_DEBUG))
    with false in HD. cbn iota in HD.
  change (String.eqb "svc" "") with false in HD. cbn iota zeta in HD.
  destruct (net_Dial σ (List.length (trace σ)) net addr) as [c|e];
    [|discriminate].
  injection HD as <- <-.
  set (w0 := mkWriter _ _ _ _ _ _ _).
  set (σ1 := log _ σ).
  assert (Hm : mu (connected c w0) = false)
    by (unfold connected; destruct (String.eqb (hostname w0) ""); reflexivity).
  assert (Hc : conn (connected c w0) = Some c)
    by (unfold connected; destruct (String.eqb (hostname w0) ""); reflexivity).
  assert (Ht : tag (connected c w0) = "svc")
    by (unfold connected; destruct (String.eqb (hostname w0) ""); reflexivity).
  assert (Hp : effective_priority (connected c w0) LOG_DEBUG = 159)
    by (unfold connected; destruct (String.eqb (hostname w0) ""); reflexivity).
  assert (Hline : wire_line (effective_priority (connected c w0) LOG_DEBUG)
                            (connected c w0) σ1 "disk full"
                  = "<159>" ++ time_Now_RFC3339 σ1 (List.length (trace σ1)) ++ " "
                      ++ hostname (connected c w0) ++ " " ++ "svc" ++ "["
                      ++ fmt_d (os_Getpid σ1) ++ "]: " ++ "disk full" ++ newline).
  { rewrite Hp. unfold wire_line, frame. rewrite Ht. reflexivity. }
  split; [reflexivity|]. split; [|split].
  - unfold new_events.
    rewrite (proj1 (proj2 (proj2 (proj2 (proj2 (proj2 (proj2 (proj2
              (entry_points_final_state "disk full" (connected c w0, σ1)))))))))).
    fold (new_events σ1 (writeAndRetry LOG_DEBUG "disk full" (connected c w0, σ1))).
    destruct (writeAndRetry_paths LOG_DEBUG "disk full" (connected c w0) σ1);
      try congruence; subst; cbn [wire]; now rewrite Hline.
  - apply (prefix_append "<159>").
  - intros c' Hc' Hw. rewrite <- Hline in Hw.
    unfold Debug, bind.
    rewrite (writeAndRetry_first_write_ok _ _ _ _ _ Hm Hc' Hw).
    eexists. reflexivity.
Qed.

Lemma Debug_on_LOCAL3_writer_sends_159_witness :
  Dial "tcp" ":1514" (Z.lor LOG_LOCAL3 LOG_ERR) "svc" "" demo_world
    = Returns (Some (demo_writer 155), None)
        (log (EvDial "tcp" ":1514" (inl (mkConn 0 "127.0.0.1:40000"))) demo_world)
  /\ wire (new_events
             (log (EvDial "tcp" ":1514" (inl (mkConn 0 "127.0.0.1:40000")))
                  demo_world)
             (Debug "disk full"
                (demo_writer 155,
                 log (EvDial "tcp" ":1514" (inl (mkConn 0 "127.0.0.1:40000")))
                     demo_world)))
     = ["<159>2006-01-02T15:04:05Z myhost svc[4242]: disk full" ++ newline].
Proof.
  split; [reflexivity|].
  exact (proj1 (proj2 (Debug_on_LOCAL3_writer_sends_159 "tcp" ":1514" ""
                         demo_world _ (demo_writer 155) eq_refl))).
Defined.

(** * Close, connect and the mutex *)

Lemma set_mu_same w : set_mu (mu w) w = w.
Proof. now destruct w. Qed.

Lemma Close_run w σ :
  mu w = false ->
  Close (w, σ) =
  match conn w with
  | Some c =>
      let res := conn_Close σ (List.length (trace σ)) c in
      Returns (option_map net_error res)
              (set_conn None w, log (EvClose c res) σ)
  | None => Returns None (w, σ)
  end.
Proof.
  intros Hm. destruct w as [wp tg hn nw ra m cn]. cbn in Hm. subst m.
  go_run. destruct cn; reflexivity.
Qed.

Lemma Close_locked w σ : mu w = true -> Close (w, σ) = Blocks (w, σ).
Proof. intros Hm. go_run. rewrite Hm. reflexivity. Qed.

(** X1. [Close] on a writer whose mutex is free returns what closing the
    transport returned, and leaves the writer without a connection and
    with the mutex free whether or not that failed; a second [Close]
    returns no error and does nothing on the network. *)
Theorem Close_twice (w : Writer) (σ : World) :
  mu w = false ->
  exists r w1 σ1,
    Close (w, σ) = Returns r (w1, σ1)
    /\ conn w1 = None /\ mu w1 = false
    /\ r = match conn w with
           | Some c =>
               option_map net_error (conn_Close σ (List.length (trace σ)) c)
           | None => None
           end
    /\ trace σ1
       = (trace σ ++ match conn w with
                     | Some c =>
                         [EvClose c (conn_Close σ (List.length (trace σ)) c)]
                     | None => []
                     end)%list
    /\ Close (w1, σ1) = Returns None (w1, σ1).
Proof.
  intros Hm. rewrite (Close_run _ _ Hm).
  destruct (conn w) as [c|] eqn:Hc; cbn zeta.
  - eexists _, _, _. split; [reflexivity|].
    repeat split; try reflexivity; try assumption.
    now rewrite Close_run.
  - exists None, w, σ. rewrite app_nil_r.
    repeat split; try assumption.
    rewrite (Close_run _ _ Hm), Hc. reflexivity.
Qed.

Lemma Close_twice_witness :
  exists r w1 σ1,
    Close (demo_writer 13, demo_world) = Returns r (w1, σ1)
    /\ conn w1 = None
    /\ Close (w1, σ1) = Returns None (w1, σ1).
Proof.
  destruct (Close_twice (demo_writer 13) demo_world eq_refl)
    as (r & w1 & σ1 & H1 & H2 & _ & _ & _ & H6).
  exists r, w1, σ1. repeat split; assumption.
Defined.

Lemma connected_fields c w :
  priority (connected c w) = priority w
  /\ tag (connected c w) = tag w
  /\ network (connected c w) = network w
  /\ raddr (connected c w) = raddr w
  /\ mu (connected c w) = mu w
  /\ conn (connected c w) = Some c
  /\ hostname (connected c w)
     = if (hostname w =? "")%string then LocalAddr c else hostname w.
Proof.
  unfold connected. destruct (String.eqb (hostname w) ""); repeat split.
Qed.

(** X2. A call of [writeAndRetry] never panics, whatever the state it
    starts from.  Started with the mutex free, a call that returns has
    released the mutex, and one that returns without an error leaves the
    writer holding a connection. *)
Theorem emission_releases_the_mutex
    (w : Writer) (σ : World) (p : Priority) (s : string) :
  (forall msg st, writeAndRetry p s (w, σ) <> Panics msg st)
  /\ (mu w = false ->
      forall r st,
        writeAndRetry p s (w, σ) = Returns r st ->
        mu (fst st) = false
        /\ (snd r = None -> exists c, conn (fst st) = Some c)).
Proof.
  split.
  - intros msg st H. destruct (writeAndRetry_paths p s w σ); discriminate.
  - intros Hm r st H.
    destruct (writeAndRetry_paths p s w σ); try discriminate;
      injection H as <- <-; cbn [fst snd].
    + split; [assumption | eauto].
    + split; [assumption | discriminate].
    + destruct (connected_fields c w) as (_ & _ & _ & _ & Hmu & Hc & _).
      split; [congruence | eauto].
Qed.

(** X3. No call changes what the writer was configured with: after
    [writeAndRetry] and after [Close], however the call ends, priority,
    tag, network and remote address are the ones before the call.  The
    hostname is kept as well, except that a writer with an empty hostname
    takes the local address of the connection a reconnect obtains. *)
Theorem calls_keep_the_configuration
    (w : Writer) (σ : World) (p : Priority) (s : string) :
  let w1 := fst (final_state (writeAndRetry p s (w, σ))) in
  let w2 := fst (final_state (Close (w, σ))) in
  (priority w1 = priority w /\ tag w1 = tag w
   /\ network w1 = network w /\ raddr w1 = raddr w
   /\ (hostname w1 = hostname w
       \/ (hostname w = ""
           /\ exists c, conn w1 = Some c /\ hostname w1 = LocalAddr c)))
  /\ (priority w2 = priority w /\ tag w2 = tag w
      /\ network w2 = network w /\ raddr w2 = raddr w
      /\ hostname w2 = hostname w).
Proof.
  cbn zeta. split.
  - destruct (writeAndRetry_paths p s w σ); cbn [final_state fst];
      try (repeat split; now left).
    destruct (connected_fields c w) as (Hp & Ht & Hn & Hr & _ & Hc & Hh).
    repeat split; try assumption.
    destruct (String.eqb_spec (hostname w) "") as [E|_]; [right | now left].
    split; [exact E | eauto].
  - destruct (mu w) eqn:Hm.
    + rewrite (Close_locked _ _ Hm). repeat split.
    + rewrite (Close_run _ _ Hm). destruct (conn w); repeat split.
Qed.

(** The state a failed write on a live connection leaves behind. *)
Lemma stuck_state p s w σ c e :
  mu w = false -> conn w = Some c ->
  conn_Write σ (List.length (trace σ)) c
             (wire_line (effective_priority w p) w σ s) = Some e ->
  mu (fst (final_state (writeAndRetry p s (w, σ)))) = true.
Proof.
  intros Hm Hc Hw.
  rewrite (writeAndRetry_first_write_fails _ _ _ _ _ _ Hm Hc Hw).
  reflexivity.
Qed.

(** X4. After a write has failed on a live connection the writer is of
    no further use: the call that met the failure left the mutex locked,
    so every later call on the writer, any emission, [Write] or [Close],
    blocks at once, without an event on the network. *)
Theorem writer_dead_after_failed_write
    (p : Priority) (s : string) (w : Writer) (σ : World) (c : Conn)
    (e : OpError) :
  mu w = false -> conn w = Some c ->
  conn_Write σ (List.length (trace σ)) c
             (wire_line (effective_priority w p) w σ s) = Some e ->
  let st := final_state (writeAndRetry p s (w, σ)) in
  (forall p' s', writeAndRetry p' s' st = Blocks st)
  /\ (forall m, Write m st = Blocks st)
  /\ (forall m, Emerg m st = Blocks st /\ Alert m st = Blocks st
                /\ Crit m st = Blocks st /\ Err m st = Blocks st
                /\ Warning m st = Blocks st /\ Notice m st = Blocks st
                /\ Info m st = Blocks st /\ Debug m st = Blocks st)
  /\ Close st = Blocks st.
Proof.
  intros Hm Hc Hw. cbn zeta.
  pose proof (stuck_state _ _ _ _ _ _ Hm Hc Hw) as Hst.
  destruct (final_state (writeAndRetry p s (w, σ))) as [w' σ'].
  cbn [fst] in Hst.
  assert (HB : forall p' s', writeAndRetry p' s' (w', σ') = Blocks (w', σ'))
    by (intros; now apply writeAndRetry_locked).
  split; [exact HB|]. split; [|split].
  - intros m. change (Write m (w', σ'))
      with (writeAndRetry (priority w') m (w', σ')). apply HB.
  - intros m. unfold Emerg, Alert, Crit, Err, Warning, Notice, Info, Debug, bind.
    rewrite !HB. repeat split.
  - now apply Close_locked.
Qed.

Lemma writer_dead_after_failed_write_witness :
  let st := final_state (writeAndRetry LOG_INFO "hello"
                           (demo_writer 13, severed_world)) in
  Info "again" st = Blocks st /\ Close st = Blocks st.
Proof.
  cbn zeta.
  pose proof (writer_dead_after_failed_write LOG_INFO "hello" (demo_writer 13)
                severed_world (mkConn 0 "127.0.0.1:40000")
                (mkOpError "write" "broken pipe") eq_refl eq_refl eq_refl)
    as (_ & _ & H & HC).
  split; [exact (proj1 (proj2 (proj2 (proj2 (proj2 (proj2 (proj2 (H "again")))))))) | exact HC].
Defined.

(** X5. [writeAndRetry] never closes a connection, and it dials only
    from a writer that holds none: a connection whose write failed is
    neither closed nor replaced. *)
Theorem emission_never_closes_or_replaces
    (w : Writer) (σ : World) (p : Priority) (s : string) :
  let evs := new_events σ (writeAndRetry p s (w, σ)) in
  (forall c r, ~ In (EvClose c r) evs)
  /\ ((exists c, conn w = Some c) -> dial_attempts evs = 0%nat)
  /\ (forall c, conn w = Some c ->
        conn (fst (final_state (writeAndRetry p s (w, σ)))) = Some c).
Proof.
  cbn zeta. split; [|split].
  - intros c0 r H.
    destruct (writeAndRetry_paths p s w σ); cbn in H;
      intuition discriminate.
  - intros [c0 Hc0].
    destruct (writeAndRetry_paths p s w σ); try reflexivity; congruence.
  - intros c0 Hc0.
    destruct (writeAndRetry_paths p s w σ); cbn [final_state fst];
      try assumption; congruence.
Qed.

(** * Dial, then write *)

Lemma Dial_returns_writer net addr p tg host σ w σ1 :
  Dial net addr p tg host σ = Returns (Some w, None) σ1 ->
  0 <= p <= Z.lor LOG_LOCAL7 LOG_DEBUG
  /\ exists c tag',
       (if (tg =? "")%string then nth_error (os_Args σ) 0 else Some tg) = Some tag'
       /\ net_Dial σ (List.length (trace σ)) net addr = inl c
       /\ σ1 = log (EvDial net addr (inl c)) σ
       /\ w = connected c
                (mkWriter p tag'
                   (if (host =? "")%string then fst (os_Hostname σ) else host)
                   net addr false None).
Proof.
  intros H. rewrite Dial_run in H.
  destruct ((p <? 0) || (p >? Z.lor LOG_LOCAL7 LOG_DEBUG)) eqn:G;
    [discriminate|].
  split.
  { destruct (Z_lt_dec p 0) as [Hl|Hl];
      [assert (G' := proj2 (invalid_priority_guard p) (or_introl Hl)); congruence|].
    destruct (Z_gt_dec p (Z.lor LOG_LOCAL7 LOG_DEBUG)) as [Hg|Hg];
      [assert (G' := proj2 (invalid_priority_guard p) (or_intror Hg)); congruence|].
    lia. }
  destruct (if (tg =? "")%string then elem_at (os_Args σ) 0 else Done tg)
    as [tag'|msg] eqn:Et; [|discriminate].
  cbn zeta in H.
  destruct (net_Dial σ (List.length (trace σ)) net addr) as [c|e] eqn:Ed;
    [|discriminate].
  injection H as <- <-. exists c, tag'. repeat split.
  destruct (String.eqb tg ""); [|congruence].
  unfold elem_at in Et. destruct (nth_error (os_Args σ) 0); congruence.
Qed.

Lemma masks_cover_a_byte (p : Z) :
  0 <= p < 256 ->
  Z.lor (Z.land p facilityMask) (Z.land p severityMask) = p.
Proof.
  intros Hp. rewrite <- Z.land_lor_distr_r.
  change (Z.lor facilityMask severityMask) with (Z.ones 8).
  rewrite Z.land_ones by lia. apply Z.mod_small. exact Hp.
Qed.



(** X7. The writer [Dial] returns holds the connection it opened.  Its
    tag is the one given, or [os.Args[0]] when none was given.  Its
    hostname is the one given, or else the name [os.Hostname] reports, or
    else, when that is empty too, the local address of the connection.
    The first emission on it writes one line, framed with that hostname
    and that tag. *)
Theorem Dial_resolves_tag_and_hostname
    (net addr : string) (p : Priority) (tg host : string)
    (σ σ1 : World) (w : Writer) :
  Dial net addr p tg host σ = Returns (Some w, None) σ1 ->
  exists c,
    conn w = Some c
    /\ net_Dial σ (List.length (trace σ)) net addr = inl c
    /\ (if (tg =? "")%string then nth_error (os_Args σ) 0 else Some tg)
       = Some (tag w)
    /\ hostname w
       = (if (host =? "")%string
          then if (fst (os_Hostname σ) =? "")%string
               then LocalAddr c
               else fst (os_Hostname σ)
          else host)
    /\ forall sev m,
         wire (new_events σ1 (writeAndRetry sev m (w, σ1)))
         = [frame (effective_priority w sev)
                  (time_Now_RFC3339 σ1 (List.length (trace σ1)))
                  (hostname w) (tag w) (os_Getpid σ1) m (added_newline m)].
Proof.
  intros HD.
  destruct (Dial_returns_writer _ _ _ _ _ _ _ _ HD)
    as (_ & c & tag' & Htag & Hd & -> & ->).
  set (w0 := mkWriter p tag' _ net addr false None).
  destruct (connected_fields c w0) as (_ & Ht & _ & _ & Hm & Hc & Hh).
  exists c. split; [exact Hc|]. split; [exact Hd|]. split; [now rewrite Ht|].
  split.
  - rewrite Hh. subst w0. cbn [hostname].
    destruct (String.eqb_spec host "") as [->|Hne]; [reflexivity|].
    destruct (String.eqb_spec host ""); [contradiction | reflexivity].
  - intros sev m.
    assert (Hm' : mu (connected c w0) = false) by (rewrite Hm; reflexivity).
    destruct (writeAndRetry_paths sev m (connected c w0)
                (log (EvDial net addr (inl c)) σ));
      try congruence; subst; reflexivity.
Qed.

Lemma Dial_resolves_tag_and_hostname_witness :
  exists c,
    conn (demo_writer 155) = Some c
    /\ hostname (demo_writer 155) = "myhost"
    /\ tag (demo_writer 155) = "svc".
Proof.
  destruct (Dial_resolves_tag_and_hostname "tcp" ":1514" 155 "svc" ""
              demo_world _ (demo_writer 155) eq_refl)
    as (c & Hc & _ & _ & _ & _).
  exists c. repeat split. exact Hc.
Defined.





(** * More about the parser *)

Lemma upper_byte_is_dot c : Ascii.eqb (upper_byte c) "." = Ascii.eqb c ".".
Proof. destruct c as [[] [] [] [] [] [] [] []]; reflexivity. Qed.

Lemma Split_upper s :
  Split (map_bytes upper_byte s) "." = map (map_bytes upper_byte) (Split s ".").
Proof.
  induction s as [|c s IH]; cbn; [reflexivity|].
  rewrite upper_byte_is_dot, IH.
  destruct (Ascii.eqb c "."); [reflexivity|].
  destruct (Split s "."); reflexivity.
Qed.

Lemma Split_isASCII s :
  isASCII s = true -> Forall (fun t => isASCII t = true) (Split s ".").
Proof.
  induction s as [|c s IH]; cbn.
  - intros _. now repeat constructor.
  - intros H. apply andb_true_iff in H as [Hc Hs]. specialize (IH Hs).
    destruct (Ascii.eqb c ".").
    + now constructor.
    + destruct (Split s ".") as [|t ts].
      * constructor; [cbn; now rewrite Hc | constructor].
      * inversion IH as [|? ? Ht Hts]; subst.
        constructor; [cbn; now rewrite Hc, Ht | exact Hts].
Qed.

Section MoreParseFacts.

Variable U : string -> string.

Lemma parsePriority_tokens s :
  parsePriority U s = parse_upper_tokens (map (ToUpper U) (Split s ".")).
Proof.
  rewrite parsePriority_run. unfold facility_token, level_token.
  pose proof (Split_nonempty s ".") as Hne.
  destruct (Split s ".") as [|a [|b r]]; [congruence | |]; reflexivity.
Qed.

Lemma ToUpper_tokens_ASCII s :
  isASCII s = true ->
  map (ToUpper U) (Split s ".") = Split (map_bytes upper_byte s) ".".
Proof.
  intros H. rewrite Split_upper. apply map_ext_Forall.
  eapply Forall_impl; [|apply (Split_isASCII _ H)].
  intros t Ht. unfold ToUpper. now rewrite Ht.
Qed.

(** X10. Only the first two tokens count: whatever follows a second
    ['.'] is ignored, so ["a.b.rest"] parses as ["a.b"] does. *)
Theorem parsePriority_ignores_extra_tokens (a b rest : string) :
  contains_byte "." a = false ->
  contains_byte "." b = false ->
  parsePriority U (a ++ "." ++ b ++ "." ++ rest) = parsePriority U (a ++ "." ++ b).
Proof.
  intros Ha Hb. rewrite !parsePriority_tokens.
  change (a ++ "." ++ b ++ "." ++ rest) with (a ++ String "." (b ++ String "." rest)).
  change (a ++ "." ++ b) with (a ++ String "." b).
  rewrite !(Split_at_first_separator _ _ _ Ha).
  rewrite (Split_at_first_separator _ _ _ Hb), (Split_without_separator _ _ Hb).
  cbn [map parse_upper_tokens].
  destruct (assoc (ToUpper U a) facility_table); reflexivity.
Qed.

(** X11. On inputs made of ASCII bytes the parse does not depend on the
    case of the letters: two inputs that agree once their letters are put
    in upper case give the same result, the same priority or the same
    error or the same panic. *)
Theorem parsePriority_case_insensitive (s t : string) :
  isASCII s = true -> isASCII t = true ->
  map_bytes upper_byte s = map_bytes upper_byte t ->
  parsePriority U s = parsePriority U t.
Proof.
  intros Hs Ht E.
  rewrite !parsePriority_tokens, (ToUpper_tokens_ASCII _ Hs),
    (ToUpper_tokens_ASCII _ Ht), E.
  reflexivity.
Qed.

(** X12. A parsed priority can be taken apart again: its facility bits
    are the value [facilityPriority] gave for the first token and its
    severity bits the value [levelPriority] gave for the second, so the
    two tokens' values are recovered from the result. *)
Theorem parsed_priority_decodes (s : string) (p : Priority) :
  parsePriority U s = Done (p, None) ->
  exists t1,
    level_token s = Some t1
    /\ facilityPriority U (facility_token s) = (Z.land p facilityMask, None)
    /\ levelPriority U t1 = (Z.land p severityMask, None).
Proof.
  intros H. rewrite parsePriority_run in H.
  rewrite facilityPriority_lookup.
  destruct (assoc (ToUpper U (facility_token s)) facility_table)
    as [fv|] eqn:Ef; [|discriminate].
  destruct (level_token s) as [t1|]; [|discriminate].
  exists t1. split; [reflexivity|]. rewrite levelPriority_lookup.
  destruct (assoc (ToUpper U t1) level_spellings) as [lv|] eqn:El;
    [|discriminate].
  injection H as <-.
  apply assoc_Some_In in Ef. apply assoc_Some_In in El.
  destruct (facility_values_in_range U _ _ Ef) as (Hf1 & Hf2 & _).
  destruct (level_values_in_range _ _ El) as (Hl1 & Hl2 & _).
  rewrite !Z.land_lor_distr_l, Hf1, Hf2, Hl1, Hl2, Z.lor_0_r, Z.lor_0_l.
  split; reflexivity.
Qed.

End MoreParseFacts.

Lemma parsePriority_ignores_extra_tokens_witness :
  parsePriority (fun s => s) ("user" ++ "." ++ "notice" ++ "." ++ "x.y")
  = parsePriority (fun s => s) ("user" ++ "." ++ "notice").
Proof.
  exact (parsePriority_ignores_extra_tokens (fun s => s) "user" "notice" "x.y"
           eq_refl eq_refl).
Defined.

Lemma parsePriority_case_insensitive_witness :
  parsePriority (fun s => s) "Local3.Warn"
  = parsePriority (fun s => s) "lOCAL3.wARN".
Proof.
  exact (parsePriority_case_insensitive (fun s => s) "Local3.Warn" "lOCAL3.wARN"
           eq_refl eq_refl eq_refl).
Defined.

Lemma parsed_priority_decodes_witness :
  exists t1,
    level_token "local3.err" = Some t1
    /\ facilityPriority (fun s => s) (facility_token "local3.err")
       = (Z.land 155 facilityMask, None)
    /\ levelPriority (fun s => s) t1 = (Z.land 155 severityMask, None).
Proof.
  exact (parsed_priority_decodes (fun s => s) "local3.err" 155 eq_refl).
Defined.

(** * The command-line tool *)

Section CommandFacts.

Variable U : string -> string.

(** [main] from the point where [Dial] has returned a writer. *)
Lemma main_after_Dial opts args σ p w σ1 c :
  parsePriority U (Options.Priority opts) = Done (p, None) ->
  Dial (Options.Connection opts) (Options.Address opts) p
       (Options.Tag opts) (Options.Hostname opts) σ
    = Returns (Some w, None) σ1 ->
  mu w = false -> conn w = Some c ->
  main U (Parsed opts args) σ =
  let message := Join args " " in
  if (0 <? String.length message)%nat
  then
    let line := wire_line (effective_priority w (priority w)) w σ1 message in
    match conn_Write σ1 (List.length (trace σ1)) c line with
    | None =>
        let σ2 := log (EvWrite c line None) σ1 in
        Returns main_returns
                (log (EvClose c (conn_Close σ2 (List.length (trace σ2)) c)) σ2)
    | Some e => Blocks (log (EvWrite c line (Some e)) σ1)
    end
  else
    Returns main_returns
            (log (EvClose c (conn_Close σ1 (List.length (trace σ1)) c)) σ1).
Proof.
  intros HP HD Hm Hc. unfold main. rewrite HP, HD. cbn zeta.
  unfold defer.
  destruct (0 <? String.length (Join args " "))%nat.
  - assert (E : (_ <- Write (Join args " ") ;; ret tt)%go (w, σ1)
                 = match writeAndRetry (priority w) (Join args " ") (w, σ1) with
                   | Returns _ s' => Returns tt s'
                   | Panics msg s' => Panics msg s'
                   | Blocks s' => Blocks s'
                   end) by reflexivity.
    rewrite E. clear E.
    destruct (conn_Write σ1 (List.length (trace σ1)) c
                (wire_line (effective_priority w (priority w)) w σ1
                   (Join args " "))) as [e|] eqn:Hw.
    + rewrite (writeAndRetry_first_write_fails _ _ _ _ _ _ Hm Hc Hw).
      reflexivity.
    + rewrite (writeAndRetry_first_write_ok _ _ _ _ _ Hm Hc Hw).
      unfold ret, bind. rewrite (Close_run _ _ Hm), Hc. reflexivity.
  - unfold ret, bind. rewrite (Close_run _ _ Hm), Hc. reflexivity.
Qed.

Lemma Dial_writer_ready net addr p tg host σ w σ1 :
  Dial net addr p tg host σ = Returns (Some w, None) σ1 ->
  mu w = false
  /\ exists c, conn w = Some c
               /\ σ1 = log (EvDial net addr (inl c)) σ
               /\ priority w = p.
Proof.
  intros HD.
  destruct (Dial_returns_writer _ _ _ _ _ _ _ _ HD)
    as (_ & c & tag' & _ & _ & -> & ->).
  set (w0 := mkWriter p tag' _ net addr false None).
  destruct (connected_fields c w0) as (Hp & _ & _ & _ & Hm & Hc & _).
  split; [exact Hm|]. exists c. repeat split; assumption.
Qed.

Lemma main_events_log1 {A} σ (o : outcome World A) e :
  trace (final_state o) = trace (log e σ) -> main_events σ o = [e].
Proof. unfold main_events. intros ->. apply events_since_app. Qed.

Lemma main_events_log2 {A} σ (o : outcome World A) e1 e2 :
  trace (final_state o) = trace (log e2 (log e1 σ)) ->
  main_events σ o = [e1; e2].
Proof.
  unfold main_events. intros ->. cbn. rewrite <- app_assoc.
  apply events_since_app.
Qed.

Lemma main_events_log3 {A} σ (o : outcome World A) e1 e2 e3 :
  trace (final_state o) = trace (log e3 (log e2 (log e1 σ))) ->
  main_events σ o = [e1; e2; e3].
Proof.
  unfold main_events. intros ->. cbn. rewrite <- !app_assoc.
  apply events_since_app.
Qed.

Lemma main_events_none {A} σ (o : outcome World A) :
  final_state o = σ -> main_events σ o = [].
Proof. unfold main_events. intros ->. apply events_since_same. Qed.

End CommandFacts.

Lemma Dial_cases net addr p tg host σ :
  Dial net addr p tg host σ = Returns (None, Some ErrInvalidPriority) σ
  \/ (exists msg, Dial net addr p tg host σ = Panics msg σ)
  \/ (exists e, Dial net addr p tg host σ
                = Returns (None, Some (net_error e))
                          (log (EvDial net addr (inr e)) σ))
  \/ (exists w c, Dial net addr p tg host σ
                  = Returns (Some w, None) (log (EvDial net addr (inl c)) σ)).
Proof.
  rewrite Dial_run.
  destruct ((p <? 0) || (p >? Z.lor LOG_LOCAL7 LOG_DEBUG)); [now left|].
  destruct (if (tg =? "")%string then elem_at (os_Args σ) 0 else Done tg);
    [|right; left; eauto].
  cbn zeta.
  destruct (net_Dial σ (List.length (trace σ)) net addr);
    right; right; [right | left]; eauto.
Qed.

Lemma nonempty_has_length (s : string) :
  s <> "" -> (0 <? String.length s)%nat = true.
Proof. destruct s; [congruence | reflexivity]. Qed.

Section CommandTheorems.

Variable U : string -> string.

(** X13. With a priority option that parses to [p], a connection that
    is established and a message that is not empty, a run of [main] whose
    write is accepted does three things on the network, in this order: it
    dials the configured network and address, writes one line, and closes
    the connection; it then returns.  The line carries [p] itself in its
    [<PRI>] field and the arguments joined by single spaces as its
    message. *)
Theorem main_sends_one_line
    (opts : Options.Options) (args : list string) (σ σ1 : World)
    (p : Priority) (w : Writer) (c : Conn) :
  parsePriority U (Options.Priority opts) = Done (p, None) ->
  Dial (Options.Connection opts) (Options.Address opts) p
       (Options.Tag opts) (Options.Hostname opts) σ
    = Returns (Some w, None) σ1 ->
  conn w = Some c ->
  Join args " " <> "" ->
  let message := Join args " " in
  let line :=
    frame p (time_Now_RFC3339 σ1 (List.length (trace σ1))) (hostname w)
          (tag w) (os_Getpid σ1) message (added_newline message) in
  conn_Write σ1 (List.length (trace σ1)) c line = None ->
  (exists σ3, main U (Parsed opts args) σ = Returns main_returns σ3)
  /\ exists res,
       main_events σ (main U (Parsed opts args) σ)
       = [EvDial (Options.Connection opts) (Options.Address opts) (inl c);
          EvWrite c line None;
          EvClose c res].
Proof.
  intros HP HD Hc Hne. cbn zeta. intros Hw.
  destruct (Dial_writer_ready _ _ _ _ _ _ _ _ HD) as (Hm & c' & Hc' & Hσ1 & Hpr).
  assert (c' = c) by congruence. subst c'.
  destruct (Dial_returns_writer _ _ _ _ _ _ _ _ HD) as (Hp & _).
  assert (Hr : Z.lor LOG_LOCAL7 LOG_DEBUG = 191) by reflexivity.
  assert (E : effective_priority w (priority w) = p).
  { unfold effective_priority. rewrite Hpr. apply masks_cover_a_byte. lia. }
  rewrite (main_after_Dial U _ _ _ _ _ _ _ HP HD Hm Hc). cbn zeta.
  rewrite (nonempty_has_length _ Hne).
  unfold wire_line. rewrite E, Hw. split; [eauto|].
  eexists. subst σ1. apply main_events_log3. reflexivity.
Qed.

(** X14. The same run when the transport refuses the write: [main]
    never finishes.  The failed write leads into the reconnect, which
    stops at the mutex; the connection is not closed, the write is not
    retried and the program neither returns nor exits. *)
Theorem main_hangs_when_the_write_fails
    (opts : Options.Options) (args : list string) (σ σ1 : World)
    (p : Priority) (w : Writer) (c : Conn) (e : OpError) :
  parsePriority U (Options.Priority opts) = Done (p, None) ->
  Dial (Options.Connection opts) (Options.Address opts) p
       (Options.Tag opts) (Options.Hostname opts) σ
    = Returns (Some w, None) σ1 ->
  conn w = Some c ->
  Join args " " <> "" ->
  let message := Join args " " in
  let line :=
    frame p (time_Now_RFC3339 σ1 (List.length (trace σ1))) (hostname w)
          (tag w) (os_Getpid σ1) message (added_newline message) in
  conn_Write σ1 (List.length (trace σ1)) c line = Some e ->
  main U (Parsed opts args) σ = Blocks (log (EvWrite c line (Some e)) σ1)
  /\ main_events σ (main U (Parsed opts args) σ)
     = [EvDial (Options.Connection opts) (Options.Address opts) (inl c);
        EvWrite c line (Some e)].
Proof.
  intros HP HD Hc Hne. cbn zeta. intros Hw.
  destruct (Dial_writer_ready _ _ _ _ _ _ _ _ HD) as (Hm & c' & Hc' & Hσ1 & Hpr).
  assert (c' = c) by congruence. subst c'.
  destruct (Dial_returns_writer _ _ _ _ _ _ _ _ HD) as (Hp & _).
  assert (Hr : Z.lor LOG_LOCAL7 LOG_DEBUG = 191) by reflexivity.
  assert (E : effective_priority w (priority w) = p).
  { unfold effective_priority. rewrite Hpr. apply masks_cover_a_byte. lia. }
  rewrite (main_after_Dial U _ _ _ _ _ _ _ HP HD Hm Hc). cbn zeta.
  rewrite (nonempty_has_length _ Hne).
  unfold wire_line. rewrite E, Hw. split; [reflexivity|].
  subst σ1. apply main_events_log2. reflexivity.
Qed.


(** X16. A priority option that does not parse stops [main] before it
    touches the network.  An unknown facility, or an unknown level after
    a known facility, ends the run with exit status 1 and the parser's
    error printed; a known facility without a ['.'] and a level ends it
    with a panic.  In the three cases the world is as it was. *)
Theorem main_rejects_bad_priority
    (opts : Options.Options) (args : list string) (σ : World) :
  let pr := Options.Priority opts in
  (~ In (ToUpper U (facility_token pr)) facility_mnemonics ->
   main U (Parsed opts args) σ
   = Returns (os_Exit 1 (Some (print_error
                (ErrInvalidFacility (ToUpper U (facility_token pr)))))) σ)
  /\ (forall t1,
        In (ToUpper U (facility_token pr)) facility_mnemonics ->
        level_token pr = Some t1 ->
        ~ In (ToUpper U t1) accepted_levels ->
        main U (Parsed opts args) σ
        = Returns (os_Exit 1 (Some (print_error
                     (ErrInvalidLevel (ToUpper U t1))))) σ)
  /\ (In (ToUpper U (facility_token pr)) facility_mnemonics ->
      level_token pr = None ->
      main U (Parsed opts args) σ
      = Panics "runtime error: index out of range [1] with length 1" σ).
Proof.
  cbn zeta. unfold main. rewrite parsePriority_run.
  unfold facility_mnemonics, accepted_levels.
  split; [|split].
  - intros Hn. apply assoc_None in Hn. now rewrite Hn.
  - intros t1 Hin Ht Hn. apply assoc_None in Hn.
    destruct (assoc (ToUpper U (facility_token (Options.Priority opts)))
                facility_table) eqn:Ef.
    + now rewrite Ht, Hn.
    + apply assoc_None in Ef. contradiction.
  - intros Hin Ht.
    destruct (assoc (ToUpper U (facility_token (Options.Priority opts)))
                facility_table) eqn:Ef.
    + now rewrite Ht.
    + apply assoc_None in Ef. contradiction.
Qed.

End CommandTheorems.

Lemma empty_or_not (s : string) :
  (s = "" /\ (0 <? String.length s)%nat = false)
  \/ (s <> "" /\ (0 <? String.length s)%nat = true).
Proof. destruct s; [left | right]; split; (reflexivity || discriminate). Qed.

(** Every run of [main] takes one of the six ways. *)
Lemma main_paths (U : string -> string) parse σ :
  main_path parse σ (main U parse σ) (main_events σ (main U parse σ)).
Proof.
  destruct parse as [opts args | help msg].
  2:{ cbn. destruct help; rewrite main_events_none by reflexivity; constructor. }
  destruct (parsePriority U (Options.Priority opts)) as [[p [err|]]|msg] eqn:HP.
  1,3: unfold main; rewrite HP; rewrite main_events_none by reflexivity;
       constructor.
  destruct (Dial_cases (Options.Connection opts) (Options.Address opts) p
              (Options.Tag opts) (Options.Hostname opts) σ)
    as [HD | [(msg & HD) | [(e & HD) | (w & c & HD)]]].
  - unfold main. rewrite HP, HD. rewrite main_events_none by reflexivity.
    constructor.
  - unfold main. rewrite HP, HD. rewrite main_events_none by reflexivity.
    constructor.
  - unfold main. rewrite HP, HD. erewrite main_events_log1 by reflexivity.
    econstructor. reflexivity.
  - destruct (Dial_writer_ready _ _ _ _ _ _ _ _ HD) as (Hm & c' & Hc & Hσ1 & _).
    assert (c' = c).
    { apply (f_equal trace) in Hσ1. cbn in Hσ1.
      apply app_inv_head in Hσ1. congruence. }
    subst c'. clear Hσ1.
    rewrite (main_after_Dial U _ _ _ _ _ _ _ HP HD Hm Hc). cbn zeta.
    destruct (empty_or_not (Join args " ")) as [[He Hl] | [Hne Hl]]; rewrite Hl.
    + erewrite main_events_log2 by reflexivity.
      eapply run_no_message; [reflexivity | exact He].
    + destruct (conn_Write _ _ c _) as [e|].
      * erewrite main_events_log2 by reflexivity.
        eapply run_hangs; [reflexivity | exact Hne].
      * erewrite main_events_log3 by reflexivity.
        eapply run_sends; [reflexivity | exact Hne].
Qed.

(** X17. Whatever the options, the arguments and the behaviour of the
    network, a run of [main] dials at most once, writes at most one line
    and closes at most one connection.  A run that ends in [os.Exit] has
    written nothing and closed nothing; a run that returns from [main]
    has dialed once and closed the connection; a line is written only
    when the joined arguments are not empty. *)
Theorem main_network_footprint
    (U : string -> string) (parse : flags_Parse_result) (σ : World) :
  let o := main U parse σ in
  let evs := main_events σ o in
  (dial_attempts evs <= 1)%nat
  /\ (write_attempts evs <= 1)%nat
  /\ (List.length (filter is_close evs) <= 1)%nat
  /\ (forall code out σ',
        o = Returns (os_Exit code out) σ' ->
        write_attempts evs = 0%nat /\ List.length (filter is_close evs) = 0%nat)
  /\ (forall σ',
        o = Returns main_returns σ' ->
        dial_attempts evs = 1%nat /\ List.length (filter is_close evs) = 1%nat)
  /\ (write_attempts evs = 1%nat ->
      exists opts args, parse = Parsed opts args /\ Join args " " <> "").
Proof.
  cbn zeta.
  destruct (main_paths U parse σ); cbn;
    repeat split; try lia; try discriminate; intros; try discriminate;
    try (split; reflexivity); eauto.
Qed.

Example main_with_defaults :
  main (fun s => s) (Parsed default_Options ["disk"; "full"]) demo_world
  = Returns main_returns
      (log (EvClose (mkConn 0 "127.0.0.1:40000") None)
         (log (EvWrite (mkConn 0 "127.0.0.1:40000")
                 ("<13>2006-01-02T15:04:05Z myhost logger[4242]: disk full"
                    ++ newline) None)
            (log (EvDial "udp" ":514" (inl (mkConn 0 "127.0.0.1:40000")))
               demo_world))).
Proof. reflexivity. Qed.

Lemma main_sends_one_line_witness :
  exists σ3,
    main (fun s => s) (Parsed default_Options ["disk"; "full"]) demo_world
    = Returns main_returns σ3.
Proof.
  refine (proj1 (main_sends_one_line (fun s => s) default_Options
                   ["disk"; "full"] demo_world _ 13 _
                   (mkConn 0 "127.0.0.1:40000")
                   eq_refl eq_refl eq_refl _ eq_refl)).
  discriminate.
Defined.

Lemma main_hangs_when_the_write_fails_witness :
  main_events severed_world
    (main (fun s => s) (Parsed default_Options ["disk"; "full"]) severed_world)
  = [EvDial "udp" ":514" (inl (mkConn 0 "127.0.0.1:40001"));
     EvWrite (mkConn 0 "127.0.0.1:40001")
       ("<13>2006-01-02T15:04:05Z myhost logger[4242]: disk full" ++ newline)
       (Some (mkOpError "write" "broken pipe"))].
Proof.
  refine (proj2 (main_hangs_when_the_write_fails (fun s => s) default_Options
                   ["disk"; "full"] severed_world _ 13 _
                   (mkConn 0 "127.0.0.1:40001")
                   (mkOpError "write" "broken pipe")
                   eq_refl eq_refl eq_refl _ eq_refl)).
  discriminate.
Defined.


Lemma main_rejects_bad_priority_witness :
  main (fun s => s)
       (Parsed (Options.mk "udp" ":514" "bogus.notice" "" "") ["x"]) demo_world
  = Returns (os_Exit 1 (Some (print_error (ErrInvalidFacility "BOGUS"))))
            demo_world.
Proof.
  refine (proj1 (main_rejects_bad_priority (fun s => s)
                   (Options.mk "udp" ":514" "bogus.notice" "" "") ["x"]
                   demo_world) _).
  cbn. intuition discriminate.
Defined.
